(** * GFXASS: the ERP sales-order chatbot engine

    A shallow embedding of the three variants of the engine found in the
    repository:

    - [Main]  : src/chat-main/index.js   (MySQL + JSON backup),
    - [Pg]    : src/unnamed/part_001     (PostgreSQL, renamed columns),
    - [Disk]  : src/unnamed/part_000     (PostgreSQL upsert + JSON backup).

    Part I models the fragment of JavaScript the engine relies on (strings,
    numbers, primitive values, flat objects, exceptions, dates); Part II
    transcribes the engine's functions, variant by variant; Part III holds the
    vocabulary in which the properties are stated, with the example inputs;
    Part IV states and proves the properties.

    Modelling conventions.
    - Strings are Rocq [string]s; [toLowerCase] and [trim] act on ASCII.
    - A number is NaN, an infinity, or an exact decimal [m * 10^e]; binary64
      rounding and the sign of zero are not represented.
    - Upstream rows are flat objects whose property values are primitives;
      only own properties are modelled.
    - A thrown exception is the [Throw] result of the error monad [res]. *)

From Stdlib Require Import ZArith List Bool Ascii String Lia.
From Stdlib Require Import Sorting.Sorted Permutation.
From Stdlib Require OrderedTypeEx.
Import ListNotations.

Local Open Scope string_scope.
Local Open Scope Z_scope.

(* ================================================================== *)
(** * Part I — the JavaScript substrate *)
(* ================================================================== *)

(** ** Exceptions *)

(** The exceptions the engine can meet: the three native errors it can
    provoke, and a failure of an external call. *)
Inductive exn := TypeError | RangeError | SyntaxError | ExternalError.

Inductive res (A : Type) : Type :=
| Ok (a : A)
| Throw (e : exn).
Arguments Ok {A} a.
Arguments Throw {A} e.

Definition bind {A B} (m : res A) (k : A -> res B) : res B :=
  match m with
  | Ok a => k a
  | Throw e => Throw e
  end.

Notation "x <- m ;; k" := (bind m (fun x => k))
  (at level 61, m at next level, right associativity).

(** [Array.prototype.filter] with a callback that may throw: the callback is
    run on the elements from left to right and the first exception aborts
    the whole call. *)
Fixpoint filterM {A} (p : A -> res bool) (l : list A) : res (list A) :=
  match l with
  | [] => Ok []
  | x :: t =>
      b <- p x ;;
      r <- filterM p t ;;
      Ok (if b then x :: r else r)
  end.

(** [Array.prototype.forEach] threading an accumulator, callback may throw. *)
Fixpoint foldM {A S} (f : S -> A -> res S) (l : list A) (s : S) : res S :=
  match l with
  | [] => Ok s
  | x :: t => s' <- f s x ;; foldM f t s'
  end.

(** ** Strings *)

Module Str.

Definition lower_ascii (c : ascii) : ascii :=
  let n := nat_of_ascii c in
  if (Nat.leb 65 n && Nat.leb n 90)%bool then ascii_of_nat (n + 32) else c.

(** [String.prototype.toLowerCase] *)
Fixpoint toLowerCase (s : string) : string :=
  match s with
  | EmptyString => EmptyString
  | String c t => String (lower_ascii c) (toLowerCase t)
  end.

(** White space: TAB, LF, VT, FF, CR and SPACE. *)
Definition is_space (c : ascii) : bool :=
  let n := nat_of_ascii c in
  (Nat.leb 9 n && Nat.leb n 13)%bool || Nat.eqb n 32.

Fixpoint trimStart (s : string) : string :=
  match s with
  | EmptyString => EmptyString
  | String c t => if is_space c then trimStart t else s
  end.

Fixpoint rev_string (s acc : string) : string :=
  match s with
  | EmptyString => acc
  | String c t => rev_string t (String c acc)
  end.

Definition trimEnd (s : string) : string :=
  rev_string (trimStart (rev_string s "")) "".

(** [String.prototype.trim] *)
Definition trim (s : string) : string := trimEnd (trimStart s).

(** [String.prototype.startsWith] *)
Definition startsWith (s p : string) : bool := String.prefix p s.

(** [String.prototype.includes] *)
Fixpoint includes (s kw : string) : bool :=
  String.prefix kw s ||
  match s with
  | EmptyString => false
  | String _ t => includes t kw
  end.

(** [s.slice(0, n)] for a non-negative integer [n]. *)
Fixpoint take (n : nat) (s : string) : string :=
  match n, s with
  | O, _ => EmptyString
  | _, EmptyString => EmptyString
  | S k, String c t => String c (take k t)
  end.

Fixpoint drop (n : nat) (s : string) : string :=
  match n, s with
  | O, _ => s
  | _, EmptyString => EmptyString
  | S k, String _ t => drop k t
  end.

(** [s.replace(c, "")] for a one-character pattern: only the first
    occurrence is removed. *)
Fixpoint remove_first (c : ascii) (s : string) : string :=
  match s with
  | EmptyString => EmptyString
  | String d t => if Ascii.eqb c d then t else String d (remove_first c t)
  end.

(** [s.split(c)[0]]: the text before the first occurrence of [c]. *)
Fixpoint before (c : ascii) (s : string) : string :=
  match s with
  | EmptyString => EmptyString
  | String d t => if Ascii.eqb c d then EmptyString else String d (before c t)
  end.

(** [Array.prototype.join] *)
Definition join (sep : string) (l : list string) : string := String.concat sep l.

Fixpoint repeat0 (n : nat) : string :=
  match n with
  | O => EmptyString
  | S k => String "0" (repeat0 k)
  end.

End Str.

(** ** Numbers *)

Module Num.

(** [Fin m e] stands for [m * 10^e].  The canonical form has [m] not
    divisible by ten, and zero is [Fin 0 0]; every operation below returns
    canonical numbers, so that [=] on [num] is equality of values. *)
Inductive num :=
| NaN
| PInf
| NInf
| Fin (m e : Z).

Fixpoint strip10 (fuel : nat) (m e : Z) : Z * Z :=
  match fuel with
  | O => (m, e)
  | S f => if (m mod 10 =? 0) then strip10 f (m / 10) (e + 1) else (m, e)
  end.

Definition mkFin (m e : Z) : num :=
  if m =? 0 then Fin 0 0
  else let (m', e') := strip10 (Z.to_nat (Z.log2 (Z.abs m))) m e in Fin m' e'.

Definition zero : num := Fin 0 0.
Definition of_Z (z : Z) : num := mkFin z 0.

Definition canonical (n : num) : Prop :=
  match n with
  | Fin m e => (m = 0 -> e = 0) /\ (m <> 0 -> m mod 10 <> 0)
  | _ => True
  end.

Definition neg (a : num) : num :=
  match a with
  | NaN => NaN
  | PInf => NInf
  | NInf => PInf
  | Fin m e => Fin (- m) e
  end.

(** Numeric [+] *)
Definition add (a b : num) : num :=
  match a, b with
  | NaN, _ | _, NaN => NaN
  | PInf, NInf | NInf, PInf => NaN
  | PInf, _ | _, PInf => PInf
  | NInf, _ | _, NInf => NInf
  | Fin m1 e1, Fin m2 e2 =>
      let e := Z.min e1 e2 in
      mkFin (m1 * 10 ^ (e1 - e) + m2 * 10 ^ (e2 - e)) e
  end.

(** Numeric [-] *)
Definition sub (a b : num) : num := add a (neg b).

(** Three-way comparison of two numbers, [None] when one of them is NaN. *)
Definition cmp (a b : num) : option comparison :=
  match a, b with
  | NaN, _ | _, NaN => None
  | PInf, PInf | NInf, NInf => Some Eq
  | PInf, _ | _, NInf => Some Gt
  | NInf, _ | _, PInf => Some Lt
  | Fin m1 e1, Fin m2 e2 =>
      let e := Z.min e1 e2 in
      Some (Z.compare (m1 * 10 ^ (e1 - e)) (m2 * 10 ^ (e2 - e)))
  end.

(** The relational operators on numbers; every comparison with NaN is
    false. *)
Definition lt (a b : num) : bool :=
  match cmp a b with Some Lt => true | _ => false end.
Definition gt (a b : num) : bool :=
  match cmp a b with Some Gt => true | _ => false end.
Definition le (a b : num) : bool :=
  match cmp a b with Some Lt | Some Eq => true | _ => false end.
Definition ge (a b : num) : bool :=
  match cmp a b with Some Gt | Some Eq => true | _ => false end.
(** [===] on numbers *)
Definition eq (a b : num) : bool :=
  match cmp a b with Some Eq => true | _ => false end.

Definition is_nan (a : num) : bool :=
  match a with NaN => true | _ => false end.

Definition is_finite (a : num) : bool :=
  match a with Fin _ _ => true | _ => false end.

(** [Math.max(...xs)]: negative infinity on no argument, NaN as soon as one
    argument is NaN. *)
Definition max2 (a b : num) : num :=
  match cmp a b with
  | None => NaN
  | Some Lt => b
  | Some _ => a
  end.

Definition Math_max (xs : list num) : num := fold_left max2 xs NInf.

(** *** Decimal digits *)

Definition is_digit (c : ascii) : bool :=
  let n := nat_of_ascii c in (Nat.leb 48 n && Nat.leb n 57)%bool.

Definition digit_val (c : ascii) : Z := Z.of_nat (nat_of_ascii c) - 48.

Definition digit_char (d : Z) : ascii := ascii_of_nat (Z.to_nat d + 48).

(** Longest prefix made of decimal digits, and what follows it. *)
Fixpoint span_digits (s : string) : string * string :=
  match s with
  | EmptyString => (EmptyString, EmptyString)
  | String c t =>
      if is_digit c
      then let (ds, r) := span_digits t in (String c ds, r)
      else (EmptyString, s)
  end.

Fixpoint digits_value (acc : Z) (s : string) : Z :=
  match s with
  | EmptyString => acc
  | String c t => digits_value (10 * acc + digit_val c) t
  end.

Fixpoint digits_fuel (fuel : nat) (n : Z) (acc : string) : string :=
  match fuel with
  | O => acc
  | S f =>
      let acc' := String (digit_char (n mod 10)) acc in
      if n <? 10 then acc' else digits_fuel f (n / 10) acc'
  end.

(** Decimal digits of a non-negative integer, most significant first. *)
Definition digits_of (n : Z) : string :=
  digits_fuel (S (Z.to_nat (Z.log2 n))) n EmptyString.

(** *** Number::toString (radix 10) *)

Definition exponent_text (x : Z) : string :=
  (if x <? 0 then "-" else "+") ++ digits_of (Z.abs x).

(** The text of the positive number [s * 10^e], [s] canonical.  With [k]
    the number of digits of [s] and [n = k + e]: plain digits followed by
    zeros when [k <= n <= 21], a decimal point inside the digits when
    [0 < n <= 21], leading ["0."] when [-6 < n <= 0], and exponential
    notation otherwise. *)
Definition positive_text (s e : Z) : string :=
  let ds := digits_of s in
  let k := Z.of_nat (String.length ds) in
  let n := k + e in
  if (k <=? n) && (n <=? 21) then ds ++ Str.repeat0 (Z.to_nat (n - k))
  else if (0 <? n) && (n <=? 21) then
    Str.take (Z.to_nat n) ds ++ "." ++ Str.drop (Z.to_nat n) ds
  else if (-6 <? n) && (n <=? 0) then
    "0." ++ Str.repeat0 (Z.to_nat (- n)) ++ ds
  else if k =? 1 then ds ++ "e" ++ exponent_text (n - 1)
  else Str.take 1 ds ++ "." ++ Str.drop 1 ds ++ "e" ++ exponent_text (n - 1).

Definition toString (a : num) : string :=
  match a with
  | NaN => "NaN"
  | PInf => "Infinity"
  | NInf => "-Infinity"
  | Fin m e =>
      if m =? 0 then "0"
      else if m <? 0 then "-" ++ positive_text (- m) e
      else positive_text m e
  end.

(** *** Reading numeric literals *)

Definition read_sign (s : string) : bool * string :=
  match s with
  | String "-" t => (true, t)
  | String "+" t => (false, t)
  | _ => (false, s)
  end.

(** An optional ExponentPart: [e] or [E], an optional sign and at least one
    digit; the exponent is 0 and nothing is consumed when it is absent or
    incomplete. *)
Definition read_exponent (s : string) : Z * string :=
  match s with
  | String c t =>
      if (Ascii.eqb c "e" || Ascii.eqb c "E")%bool then
        let (ng, t1) := read_sign t in
        let (ds, r) := span_digits t1 in
        match ds with
        | EmptyString => (0, s)
        | _ => ((if ng then - digits_value 0 ds else digits_value 0 ds), r)
        end
      else (0, s)
  | EmptyString => (0, EmptyString)
  end.

(** Longest prefix that is an unsigned decimal literal: mantissa, exponent
    and remaining text. *)
Definition read_decimal (s : string) : option (Z * Z * string) :=
  let (ip, r1) := span_digits s in
  match r1 with
  | String "." t =>
      let (fp, r2) := span_digits t in
      match ip, fp with
      | EmptyString, EmptyString => None
      | _, _ =>
          let (ex, r3) := read_exponent r2 in
          Some (digits_value 0 (ip ++ fp), ex - Z.of_nat (String.length fp), r3)
      end
  | _ =>
      match ip with
      | EmptyString => None
      | _ => let (ex, r3) := read_exponent r1 in Some (digits_value 0 ip, ex, r3)
      end
  end.

(** Longest prefix that is a StrDecimalLiteral. *)
Definition read_literal (s : string) : option (num * string) :=
  let (ng, t) := read_sign s in
  if String.prefix "Infinity" t
  then Some ((if ng then NInf else PInf), Str.drop 8 t)
  else match read_decimal t with
       | Some (m, e, r) => Some (mkFin (if ng then - m else m) e, r)
       | None => None
       end.

(** The global [parseFloat] applied to a string. *)
Definition parseFloat (s : string) : num :=
  match read_literal (Str.trimStart s) with
  | Some (n, _) => n
  | None => NaN
  end.

(** Digits of a non-decimal integer literal. *)
Definition radix_digit (c : ascii) : option Z :=
  let n := nat_of_ascii c in
  if (Nat.leb 48 n && Nat.leb n 57)%bool then Some (Z.of_nat n - 48)
  else if (Nat.leb 97 n && Nat.leb n 102)%bool then Some (Z.of_nat n - 87)
  else if (Nat.leb 65 n && Nat.leb n 70)%bool then Some (Z.of_nat n - 55)
  else None.

Fixpoint radix_value (base acc : Z) (s : string) : option Z :=
  match s with
  | EmptyString => Some acc
  | String c t =>
      match radix_digit c with
      | Some d => if d <? base then radix_value base (base * acc + d) t else None
      | None => None
      end
  end.

Definition read_radix (base : Z) (s : string) : num :=
  match s with
  | EmptyString => NaN
  | _ => match radix_value base 0 s with
         | Some v => mkFin v 0
         | None => NaN
         end
  end.

(** StringToNumber, the conversion behind [Number(s)]: the whole trimmed
    text must be a numeric literal; the empty text is 0. *)
Definition StringToNumber (s : string) : num :=
  let t := Str.trim s in
  match t with
  | EmptyString => zero
  | String "0" (String "x" r) | String "0" (String "X" r) => read_radix 16 r
  | String "0" (String "o" r) | String "0" (String "O" r) => read_radix 8 r
  | String "0" (String "b" r) | String "0" (String "B" r) => read_radix 2 r
  | _ => match read_literal t with
         | Some (n, EmptyString) => n
         | _ => NaN
         end
  end.

(** *** Number.prototype.toFixed(2) *)

(** The integer nearest to [100 * (m * 10^e)] for [m >= 0], the larger one
    on a tie. *)
Definition hundredths (m e : Z) : Z :=
  if 0 <=? e + 2 then m * 10 ^ (e + 2)
  else (2 * m + 10 ^ (- e - 2)) / (2 * 10 ^ (- e - 2)).

Definition pad3 (ds : string) : string :=
  Str.repeat0 (3 - String.length ds) ++ ds.

Definition fixed2_text (n : Z) : string :=
  let ds := pad3 (digits_of n) in
  let k := (String.length ds - 2)%nat in
  Str.take k ds ++ "." ++ Str.drop k ds.

Definition toFixed2 (a : num) : string :=
  match a with
  | Fin m e =>
      if 22 <=? Z.of_nat (String.length (digits_of (Z.abs m))) + e
      then toString a
      else if m <? 0 then "-" ++ fixed2_text (hundredths (- m) e)
      else fixed2_text (hundredths m e)
  | _ => toString a
  end.

(** *** ToIntegerOrInfinity *)

Inductive ext_int := IInt (z : Z) | IPosInf | INegInf.

Definition toIntegerOrInfinity (a : num) : ext_int :=
  match a with
  | NaN => IInt 0
  | PInf => IPosInf
  | NInf => INegInf
  | Fin m e => IInt (if 0 <=? e then m * 10 ^ e else Z.quot m (10 ^ (- e)))
  end.

End Num.

(** ** Primitive values *)

Import Num.

Inductive prim :=
| PUndef
| PNull
| PBool (b : bool)
| PNum (n : num)
| PStr (s : string).

(** ToBoolean *)
Definition truthy (v : prim) : bool :=
  match v with
  | PUndef | PNull => false
  | PBool b => b
  | PNum NaN => false
  | PNum (Fin m _) => negb (m =? 0)
  | PNum _ => true
  | PStr s => negb (String.eqb s "")
  end.

(** [a || b] *)
Definition js_or (a b : prim) : prim := if truthy a then a else b.

(** ToString; it is also what [v.toString()] returns when [v] is neither
    [undefined] nor [null]. *)
Definition toStringP (v : prim) : string :=
  match v with
  | PUndef => "undefined"
  | PNull => "null"
  | PBool true => "true"
  | PBool false => "false"
  | PNum n => Num.toString n
  | PStr s => s
  end.

(** ToNumber, i.e. [Number(v)] *)
Definition toNumber (v : prim) : num :=
  match v with
  | PUndef => NaN
  | PNull => zero
  | PBool true => Fin 1 0
  | PBool false => zero
  | PNum n => n
  | PStr s => StringToNumber s
  end.

(** [a === b] *)
Definition strict_eq (a b : prim) : bool :=
  match a, b with
  | PUndef, PUndef | PNull, PNull => true
  | PBool x, PBool y => Bool.eqb x y
  | PNum x, PNum y => Num.eq x y
  | PStr x, PStr y => String.eqb x y
  | _, _ => false
  end.

(** The relational comparison behind [<], [>], [<=] and [>=]: code-unit
    order when both operands are strings, numeric order of the operands
    converted by ToNumber otherwise. *)
Definition rel_cmp (a b : prim) : option comparison :=
  match a, b with
  | PStr x, PStr y => Some (String.compare x y)
  | _, _ => Num.cmp (toNumber a) (toNumber b)
  end.

Definition js_lt (a b : prim) : bool :=
  match rel_cmp a b with Some Lt => true | _ => false end.
Definition js_gt (a b : prim) : bool :=
  match rel_cmp a b with Some Gt => true | _ => false end.
Definition js_le (a b : prim) : bool :=
  match rel_cmp a b with Some Lt | Some Eq => true | _ => false end.
Definition js_ge (a b : prim) : bool :=
  match rel_cmp a b with Some Gt | Some Eq => true | _ => false end.

(** [a + b]: concatenation as soon as one operand is a string. *)
Definition js_add (a b : prim) : prim :=
  match a, b with
  | PStr _, _ | _, PStr _ => PStr (toStringP a ++ toStringP b)
  | _, _ => PNum (Num.add (toNumber a) (toNumber b))
  end.

(** [a - b] *)
Definition js_sub (a b : prim) : num := Num.sub (toNumber a) (toNumber b).

(** String methods called on an arbitrary primitive: the call throws a
    TypeError unless the receiver is a string. *)
Definition as_string (v : prim) : res string :=
  match v with
  | PStr s => Ok s
  | _ => Throw TypeError
  end.

Definition m_toLowerCase (v : prim) : res string :=
  s <- as_string v ;; Ok (Str.toLowerCase s).

Definition m_trim (v : prim) : res string :=
  s <- as_string v ;; Ok (Str.trim s).

(** ** Flat objects *)

(** Own properties in property order: array-index keys in ascending numeric
    order first, then the other keys in creation order. *)
Definition obj := list (string * prim).

(** [o[k]] or [o.k] *)
Fixpoint get (o : obj) (k : string) : prim :=
  match o with
  | [] => PUndef
  | (k', v) :: t => if String.eqb k k' then v else get t k
  end.

Fixpoint has (o : obj) (k : string) : bool :=
  match o with
  | [] => false
  | (k', _) :: t => String.eqb k k' || has t k
  end.

Fixpoint all_digits (s : string) : bool :=
  match s with
  | EmptyString => true
  | String c t => is_digit c && all_digits t
  end.

(** The array index a property key denotes, if any: a canonical decimal
    numeral below [2^32 - 1]. *)
Definition array_index (k : string) : option Z :=
  match k with
  | EmptyString => None
  | String c t =>
      if all_digits k && (negb (Ascii.eqb c "0") || String.eqb t "")
      then let v := digits_value 0 k in
           if v <? 4294967295 then Some v else None
      else None
  end.

Fixpoint update (o : obj) (k : string) (v : prim) : obj :=
  match o with
  | [] => []
  | (k', v') :: t =>
      if String.eqb k k' then (k', v) :: t else (k', v') :: update t k v
  end.

Fixpoint insert_index (o : obj) (i : Z) (k : string) (v : prim) : obj :=
  match o with
  | [] => [(k, v)]
  | (k', v') :: t =>
      match array_index k' with
      | Some j => if j <? i then (k', v') :: insert_index t i k v
                  else (k, v) :: o
      | None => (k, v) :: o
      end
  end.

(** [o[k] = v] *)
Definition set (o : obj) (k : string) (v : prim) : obj :=
  if has o k then update o k v
  else match array_index k with
       | Some i => insert_index o i k v
       | None => (o ++ [(k, v)])%list
       end.

(** [Object.entries(o)] *)
Definition entries (o : obj) : list (string * prim) := o.

(** ** Values of the descriptor *)

(** A property of the translator's JSON may also be an array of primitives
    (as [fields]) or a flat object (as [gpThreshold]). *)
Inductive value :=
| VPrim (p : prim)
| VArr (items : list prim)
| VObj (props : obj).

Definition truthyV (v : value) : bool :=
  match v with
  | VPrim p => truthy p
  | _ => true
  end.

(** [a || b] on values *)
Definition v_or (a b : value) : value := if truthyV a then a else b.

(** An element of an array in [Array.prototype.join]: [undefined] and
    [null] give the empty text. *)
Definition join_item (p : prim) : string :=
  match p with
  | PUndef | PNull => ""
  | _ => toStringP p
  end.

Definition toStringV (v : value) : string :=
  match v with
  | VPrim p => toStringP p
  | VArr l => Str.join "," (map join_item l)
  | VObj _ => "[object Object]"
  end.

(** [v.k] for a value that is neither [undefined] nor [null], [k] not being
    a property of strings or arrays. *)
Definition getV (v : value) (k : string) : prim :=
  match v with
  | VObj o => get o k
  | _ => PUndef
  end.

(** [a === b] with a property of a row on the left: an array or an object
    of the descriptor is never identical to it. *)
Definition strict_eqV (a : prim) (b : value) : bool :=
  match b with
  | VPrim p => strict_eq a p
  | _ => false
  end.

Definition as_stringV (v : value) : res string :=
  match v with
  | VPrim (PStr s) => Ok s
  | _ => Throw TypeError
  end.

Definition mV_toLowerCase (v : value) : res string :=
  s <- as_stringV v ;; Ok (Str.toLowerCase s).

Definition mV_trim (v : value) : res string :=
  s <- as_stringV v ;; Ok (Str.trim s).

Definition is_str (v : value) (s : string) : bool :=
  strict_eqV (PStr s) v.

(** ToNumber of a value of the descriptor; arrays and objects go through
    their text. *)
Definition toNumberV (v : value) : num :=
  match v with
  | VPrim p => toNumber p
  | _ => StringToNumber (toStringV v)
  end.

(** SameValueZero, the membership test of [Set.prototype.has]. *)
Definition same_value_zero (a b : prim) : bool :=
  match a, b with
  | PNum NaN, PNum NaN => true
  | _, _ => strict_eq a b
  end.

Definition nl : string := String (ascii_of_nat 10) EmptyString.

(** ** Arrays *)

(** [l.slice(0, end)]: the number of elements kept. *)
Definition slice_count (len : nat) (e : ext_int) : nat :=
  match e with
  | INegInf => O
  | IPosInf => len
  | IInt z =>
      if z <? 0 then Z.to_nat (Z.max (Z.of_nat len + z) 0)
      else Z.to_nat (Z.min z (Z.of_nat len))
  end.

Definition slice0 {A} (l : list A) (e : ext_int) : list A :=
  firstn (slice_count (List.length l) e) l.

(** [Array.prototype.sort(comparefn)].  The sort is stable and, for a
    consistent comparator, its result is determined; it is modelled by the
    stable insertion sort.  [c a b] is the number [comparefn(a, b)]; [a] is
    placed after [b] exactly when it is positive (NaN counts as zero). *)
Fixpoint insert_by {A} (c : A -> A -> num) (x : A) (l : list A) : list A :=
  match l with
  | [] => [x]
  | y :: t => if Num.gt (c x y) zero then y :: insert_by c x t else x :: l
  end.

Definition sort_by {A} (c : A -> A -> num) (l : list A) : list A :=
  fold_right (insert_by c) [] l.

(** [l.map((x, i) => f x i)] *)
Fixpoint mapi_from {A B} (i : nat) (f : A -> nat -> B) (l : list A) : list B :=
  match l with
  | [] => []
  | x :: t => f x i :: mapi_from (S i) f t
  end.

Definition mapi {A B} (f : A -> nat -> B) (l : list A) : list B :=
  mapi_from O f l.

(** ** Dates and the runtime *)

(** Services of the runtime that depend on its locale data, its time zone
    or its date parser. *)
Class Runtime := {
  (** [new Intl.NumberFormat("en-PH", {style: "currency", currency: "PHP"}).format(x)] *)
  formatPeso : prim -> string;
  (** [x.toLocaleString(undefined, {minimumFractionDigits: 2})] *)
  toLocaleString2 : prim -> string;
  (** the sign of [a.localeCompare(b)] *)
  localeCompare : string -> string -> Z;
  (** [Date.parse(s)], [None] standing for NaN *)
  Date_parse : string -> option Z;
  (** offset of local time from UTC, in milliseconds, at a given instant *)
  localOffset : Z -> Z
}.

Module Cal.

Definition msPerDay : Z := 86400000.

(** Days since 1970-01-01 of a date of the proleptic Gregorian calendar. *)
Definition days_from_civil (y m d : Z) : Z :=
  let y' := if m <=? 2 then y - 1 else y in
  let era := y' / 400 in
  let yoe := y' - era * 400 in
  let doy := (153 * (m + (if 2 <? m then -3 else 9)) + 2) / 5 + d - 1 in
  let doe := yoe * 365 + yoe / 4 - yoe / 100 + doy in
  era * 146097 + doe - 719468.

(** Year, month (1 to 12) and day of a day number. *)
Definition civil_from_days (z : Z) : Z * Z * Z :=
  let z' := z + 719468 in
  let era := z' / 146097 in
  let doe := z' - era * 146097 in
  let yoe := (doe - doe / 1460 + doe / 36524 - doe / 146096) / 365 in
  let doy := doe - (365 * yoe + yoe / 4 - yoe / 100) in
  let mp := (5 * doy + 2) / 153 in
  let d := doy - (153 * mp + 2) / 5 + 1 in
  let m := if mp <? 10 then mp + 3 else mp - 9 in
  let y := yoe + era * 400 in
  ((if m <=? 2 then y + 1 else y), m, d).

Definition pad (width : nat) (n : Z) : string :=
  let ds := digits_of n in
  Str.repeat0 (width - String.length ds) ++ ds.

Definition year_text (y : Z) : string :=
  if (0 <=? y) && (y <=? 9999) then pad 4 y
  else (if y <? 0 then "-" else "+") ++ pad 6 (Z.abs y).

(** [Date.prototype.toISOString] of a valid time value. *)
Definition toISOString (t : Z) : string :=
  let '(y, m, d) := civil_from_days (t / msPerDay) in
  let r := t mod msPerDay in
  year_text y ++ "-" ++ pad 2 m ++ "-" ++ pad 2 d ++ "T" ++
  pad 2 (r / 3600000) ++ ":" ++ pad 2 ((r / 60000) mod 60) ++ ":" ++
  pad 2 ((r / 1000) mod 60) ++ "." ++ pad 3 (r mod 1000) ++ "Z".

End Cal.

(** A [Date] object is its time value, [None] for an invalid date. *)
Definition jsdate := option Z.

(** TimeClip *)
Definition timeClip (n : num) : jsdate :=
  match toIntegerOrInfinity n with
  | IInt z =>
      if Num.is_nan n then None
      else if Z.abs z <=? 8640000000000000 then Some z else None
  | _ => None
  end.

Section WithRuntime.
Context {rt : Runtime}.

(** [new Date(v)] for a primitive [v] *)
Definition new_Date (v : prim) : jsdate :=
  match v with
  | PStr s => Date_parse s
  | _ => timeClip (toNumber v)
  end.

(** [new Date(v)] for a value of the descriptor *)
Definition new_DateV (v : value) : jsdate :=
  match v with
  | VPrim p => new_Date p
  | _ => Date_parse (toStringV v)
  end.

(** [d.toISOString()]: a RangeError on an invalid date. *)
Definition m_toISOString (d : jsdate) : res string :=
  match d with
  | Some t => Ok (Cal.toISOString t)
  | None => Throw RangeError
  end.

(** [d.toISOString().split("T")[0]] *)
Definition iso_day (d : jsdate) : res string :=
  s <- m_toISOString d ;; Ok (Str.before "T" s).

(** [d.getFullYear()] and [d.getMonth()], NaN on an invalid date. *)
Definition m_getFullYear (d : jsdate) : num :=
  match d with
  | Some t =>
      let '(y, _, _) := Cal.civil_from_days ((t + localOffset t) / Cal.msPerDay) in
      of_Z y
  | None => NaN
  end.

Definition m_getMonth (d : jsdate) : num :=
  match d with
  | Some t =>
      let '(_, m, _) := Cal.civil_from_days ((t + localOffset t) / Cal.msPerDay) in
      of_Z (m - 1)
  | None => NaN
  end.

End WithRuntime.

(* ================================================================== *)
(** * Part II — the engine *)
(* ================================================================== *)

(** ** Data model *)

(** A sales order, raw or normalized, is a flat object. *)
Definition order := obj.

(** The recognized properties of the translator's JSON; an absent property
    reads as [undefined]. *)
Record descriptor := mkDescriptor {
  intent : value;
  date : value;
  year : value;
  gpThreshold : value;
  customer : value;
  salesRep : value;
  status : value;
  topN : value;
  fields : value
}.

Definition vundef : value := VPrim PUndef.
Definition vnull : value := VPrim PNull.
Definition vstr (s : string) : value := VPrim (PStr s).
Definition vnum (z : Z) : value := VPrim (PNum (of_Z z)).

(** What [formatResponse] returns: a text built by the engine, or the
    content produced by the language model for the messages it was sent (a
    failure of that external call is outside the model). *)
Inductive answer :=
| Text (s : string)
| AskModel (question : string)
| AskModelWithData (question : string) (sample : list order).

(** What the translator call amounts to once [JSON.parse] has run: the call
    or the parse throws, or the parsed JSON is [null], another primitive, or
    an object (arrays included) with the recognized properties shown. *)
Inductive translation :=
| CallFails
| NotJSON
| JNull
| JPrim (p : prim)
| JObj (d : descriptor).

(** What one upstream request amounts to: [fetch] or [response.json()]
    throws, or the body is an object whose [data], when present, is an array
    of pages. *)
Inductive fetched :=
| FetchThrows
| Body (data : option (list (list order))).

(** ** Paging, shared by the three variants *)

(** [callERP]: an exception is logged and replaced by [{ data: [] }]. *)
Definition callERP (up : Z -> fetched) (offset : Z) : option (list (list order)) :=
  match up offset with
  | FetchThrows => Some []
  | Body data => data
  end.

(** [res.data?.[0] || []] *)
Definition first_page (data : option (list (list order))) : list order :=
  match data with
  | Some (p :: _) => p
  | _ => []
  end.

Definition limit : Z := 500.

(** The [while (true)] loop of [fetchAllSalesOrders]; [None] when the fuel
    runs out before the loop breaks. *)
Fixpoint fetch_loop (fuel : nat) (up : Z -> fetched)
    (allData : list order) (offset : Z) : option (list order) :=
  match fuel with
  | O => None
  | S f =>
      let soList := first_page (callERP up offset) in
      let allData' := (allData ++ soList)%list in
      if Z.of_nat (List.length soList) <? limit then Some allData'
      else fetch_loop f up allData' (offset + limit)
  end.

Definition fetchAllSalesOrders (fuel : nat) (up : Z -> fetched) : option (list order) :=
  fetch_loop fuel up [] 0.

(** The gross-profit text is stripped of its first ["%"] and of its first
    [","] before it is parsed. *)
Definition strip_gp (s : string) : string :=
  Str.remove_first "," (Str.remove_first "%" s).

(** The allow-list of [monthlyTotals]. *)
Definition validStatuses : list string :=
  [ "BILLED";
    "PARTIALLYBILLED/PARTIALLY DELIVERED";
    "PARTIALLY DELIVERED";
    "PENDING BILLING";
    "PENDING DELIVERY";
    "JO IN-PROCESS" ].

(** [validStatuses.includes(v)] *)
Definition status_allowed (v : prim) : bool :=
  existsb (fun s => same_value_zero (PStr s) v) validStatuses.

(** [(m[k] || 0) + x], stored back under [k] *)
Definition accumulate (m : obj) (k : string) (x : prim) : obj :=
  set m k (js_add (js_or (get m k) (PNum zero)) x).

(** The grouping loop of the ranked intents: amounts summed per value of the
    property [key]. *)
Definition group_sum (key : string) (l : list order) : obj :=
  fold_left (fun m o => accumulate m (toStringP (get o key)) (get o "amount")) l [].

(** The comparator [(a, b) => b[1] - a[1]] *)
Definition by_amount_desc (a b : string * prim) : num :=
  js_sub (snd b) (snd a).

(** [parsed.topN || 1], as the end of a slice *)
Definition topN_end (parsed : descriptor) : ext_int :=
  toIntegerOrInfinity (toNumberV (v_or (topN parsed) (vnum 1))).

(** [Object.entries(map).sort((a, b) => b[1] - a[1]).slice(0, topN)] *)
Definition top_groups (key : string) (l : list order) (parsed : descriptor)
  : list (string * prim) :=
  slice0 (sort_by by_amount_desc (entries (group_sum key l))) (topN_end parsed).

Definition rank_text (i : nat) : string :=
  toStringP (PNum (of_Z (Z.of_nat i + 1))).

(** ** The variant of src/chat-main/index.js *)

Module Main.

(** [summarizeERPData], one row: the row is kept and seven properties are
    added or overwritten, each read from the raw row. *)
Definition summarizeOne (so : order) : order :=
  let o1 := set so "division" (js_or (get so "Name_Dept") (PStr "Unknown")) in
  let o2 := set o1 "salesRep" (js_or (get so "Name_Empl") (PStr "Unknown")) in
  let o3 := set o2 "amount"
              (PNum (toNumber (js_or (get so "TotalAmount_TransH") (PNum zero)))) in
  let o4 := set o3 "gpRate"
              (PNum (parseFloat
                 (strip_gp (toStringP (js_or (get so "gpRate") (PStr "0")))))) in
  let o5 := set o4 "status" (get so "Status_TransH") in
  let o6 := set o5 "date" (get so "DateCreated_TransH") in
  set o6 "so_number" (js_or (get so "so_upk") (PStr "Unknown")).

Definition summarizeERPData (erpData : list order) : list order :=
  map summarizeOne erpData.

(** [mergeNewData], effect on the in-memory array: the array is replaced by
    the batch, [gpRate] and [amount] coerced to numbers.  The statements
    sent to MySQL are not part of the model. *)
Definition coerce_row (row : order) : order :=
  set (set row "gpRate" (PNum (toNumber (get row "gpRate"))))
      "amount" (PNum (toNumber (get row "amount"))).

Definition mergeNewData (allERPData newData : list order) : list order :=
  map coerce_row newData.

(** [parseQuestionWithGPT]: the body of the [try] block, then the [catch]. *)
Definition defaults : descriptor :=
  {| intent := vstr "general"; date := vnull; year := vnull;
     gpThreshold := vnull; customer := vnull; salesRep := vnull;
     status := vnull; topN := vnull; fields := VArr [] |}.

Definition fill (d : descriptor) : descriptor :=
  {| intent := if truthyV (intent d) then intent d else vstr "general";
     fields := if truthyV (fields d) then fields d else VArr [];
     customer := v_or (customer d) vnull;
     salesRep := v_or (salesRep d) vnull;
     topN := v_or (topN d) vnull;
     year := v_or (year d) vnull;
     date := v_or (date d) vnull;
     gpThreshold := v_or (gpThreshold d) vnull;
     status := v_or (status d) vnull |}.

Definition try_parse (t : translation) : res descriptor :=
  match t with
  | CallFails => Throw ExternalError
  | NotJSON => Throw SyntaxError
  | JNull => Throw TypeError      (* reading [intent] of null *)
  | JPrim _ => Throw TypeError    (* strict mode: [parsed.intent = ...] on a primitive *)
  | JObj d => Ok (fill d)
  end.

Definition parseQuestionWithGPT (t : translation) : descriptor :=
  match try_parse t with
  | Ok d => d
  | Throw _ => defaults
  end.

(** *** filterOrders *)

Definition customer_match (kw : string) (o : order) : res bool :=
  a <- m_toLowerCase (js_or (get o "Name_Cust") (PStr "")) ;;
  if Str.includes a kw then Ok true else
  b <- m_toLowerCase (js_or (get o "ContractDescription_TransH") (PStr "")) ;;
  if Str.includes b kw then Ok true else
  c <- m_toLowerCase (js_or (get o "Memo_TransH") (PStr "")) ;;
  Ok (Str.includes c kw).

Definition gp_match (operator v : prim) (o : order) : bool :=
  let g := get o "gpRate" in
  if strict_eq operator (PStr ">") then js_gt g v
  else if strict_eq operator (PStr "<") then js_lt g v
  else if strict_eq operator (PStr ">=") then js_ge g v
  else if strict_eq operator (PStr "<=") then js_le g v
  else if strict_eq operator (PStr "=") then strict_eq g v
  else true.

Definition date_is (parsed : descriptor) (o : order) : bool :=
  strict_eqV (get o "DateCreated_TransH") (date parsed).

Definition year_prefix (parsed : descriptor) (o : order) : res bool :=
  s <- as_string (get o "DateCreated_TransH") ;;
  Ok (Str.startsWith s (toStringV (year parsed))).

Definition by_customer (parsed : descriptor) (l : list order) : res (list order) :=
  if truthyV (customer parsed) then
    kw <- mV_toLowerCase (customer parsed) ;;
    filterM (customer_match kw) l
  else Ok l.

Definition by_gpThreshold (parsed : descriptor) (l : list order) : list order :=
  if truthyV (gpThreshold parsed) then
    filter (gp_match (getV (gpThreshold parsed) "operator")
                     (getV (gpThreshold parsed) "value")) l
  else l.

Definition by_date_is (parsed : descriptor) (l : list order) : list order :=
  if truthyV (date parsed) then filter (date_is parsed) l else l.

Definition by_year (parsed : descriptor) (l : list order) : res (list order) :=
  if truthyV (year parsed) then filterM (year_prefix parsed) l else Ok l.

Definition filterOrders (orders : list order) (parsed : descriptor)
  : res (list order) :=
  f1 <- by_customer parsed orders ;;
  by_year parsed (by_date_is parsed (by_gpThreshold parsed f1)).

Section WithRuntime.
Context {rt : Runtime}.

(** *** The filters at the head of formatResponse *)

Definition salesRep_match (parsed : descriptor) (o : order) : res bool :=
  a <- m_toLowerCase (js_or (get o "Name_Empl") (PStr "")) ;;
  b <- mV_toLowerCase (salesRep parsed) ;;
  Ok (String.eqb a b).

Definition same_day (targetDate : string) (o : order) : res bool :=
  orderDate <- iso_day (new_Date (get o "DateCreated_TransH")) ;;
  Ok (String.eqb orderDate targetDate).

Definition in_september_2025 (o : order) : bool :=
  let d := new_Date (get o "DateCreated_TransH") in
  Num.eq (m_getFullYear d) (of_Z 2025) && Num.eq (m_getMonth d) (of_Z 8).

Definition status_match (parsed : descriptor) (o : order) : res bool :=
  a <- m_trim (js_or (get o "Status_TransH") (PStr "")) ;;
  b <- mV_trim (status parsed) ;;
  Ok (String.eqb (Str.toLowerCase a) (Str.toLowerCase b)).

Definition by_salesRep (parsed : descriptor) (l : list order) : res (list order) :=
  if truthyV (salesRep parsed) then filterM (salesRep_match parsed) l else Ok l.

Definition by_same_day (parsed : descriptor) (l : list order) : res (list order) :=
  if truthyV (date parsed) then
    targetDate <- iso_day (new_DateV (date parsed)) ;;
    filterM (same_day targetDate) l
  else Ok l.

Definition mentions_september (question : string) : bool :=
  Str.includes (Str.toLowerCase question) "september 2025".

Definition by_september (question : string) (l : list order) : list order :=
  if mentions_september question then filter in_september_2025 l else l.

Definition by_status (parsed : descriptor) (l : list order) : res (list order) :=
  if truthyV (status parsed) then filterM (status_match parsed) l else Ok l.

Definition refine (orders : list order) (parsed : descriptor) (question : string)
  : res (list order) :=
  f1 <- by_salesRep parsed orders ;;
  f2 <- by_year parsed f1 ;;
  f3 <- by_same_day parsed f2 ;;
  by_status parsed (by_september question f3).

(** *** getSalesOrdersByDateAndStatus *)

Record summary := mkSummary {
  total_sales_orders : num;
  total_amount : string;
  highest_gp_rate : string;
  orders : list order
}.

Definition day_status_match (dateStr statusStr : string) (o : order) : res bool :=
  d <- iso_day (new_Date (get o "date_created")) ;;
  let orderDate := Str.toLowerCase d in
  s <- m_trim (get o "status") ;;
  let orderStatus := Str.toLowerCase s in
  Ok (String.eqb orderDate dateStr && String.eqb orderStatus statusStr).

Definition brief (o : order) : order :=
  [ ("so_number", get o "so_number"); ("amount", get o "amount");
    ("gp_rate", get o "gp_rate"); ("status", get o "status") ].

Definition getSalesOrdersByDateAndStatus (salesOrders : list order)
    (targetDate targetStatus : prim) : res summary :=
  d <- iso_day (new_Date targetDate) ;;
  let dateStr := Str.toLowerCase (Str.trim d) in
  s <- m_trim targetStatus ;;
  let statusStr := Str.toLowerCase s in
  filtered <- filterM (day_status_match dateStr statusStr) salesOrders ;;
  match filtered with
  | [] =>
      Ok {| total_sales_orders := zero;
            total_amount := "₱0.00";
            highest_gp_rate := "-Infinity%";
            orders := [] |}
  | _ =>
      let totalAmount :=
        fold_left (fun sum o => js_add sum (js_or (get o "amount") (PNum zero)))
                  filtered (PNum zero) in
      let highestGpRate :=
        Math_max (map (fun o => toNumber (js_or (get o "gp_rate") (PNum zero)))
                      filtered) in
      Ok {| total_sales_orders := of_Z (Z.of_nat (List.length filtered));
            total_amount := "₱" ++ toLocaleString2 totalAmount;
            highest_gp_rate := toFixed2 highestGpRate ++ "%";
            orders := map brief filtered |}
  end.

(** *** mapFields *)

(** [v != null ? v : "N/A"] inside a template *)
Definition or_NA_nullish (v : prim) : string :=
  match v with
  | PUndef | PNull => "N/A"
  | _ => toStringP v
  end.

(** [v || "N/A"] inside a template *)
Definition or_NA (v : prim) : string := toStringP (js_or v (PStr "N/A")).

Definition field_text (o : order) (f : prim) : string :=
  if strict_eq f (PStr "status") then "status: " ++ or_NA (get o "Status_TransH")
  else if strict_eq f (PStr "so_number") then "so_number: " ++ or_NA (get o "so_upk")
  else if strict_eq f (PStr "gp_rate") then "gp_rate: " ++ or_NA_nullish (get o "gpRate")
  else if strict_eq f (PStr "amount") then "amount: " ++ or_NA_nullish (get o "amount")
  else toStringP f ++ ": " ++ or_NA (get o (toStringP f)).

Definition default_text (o : order) : string :=
  "so_number: " ++ or_NA (get o "so_upk") ++ " - gp_rate: " ++
  or_NA_nullish (get o "gpRate") ++ " - amount: " ++ or_NA (get o "amount").

(** [parsed.fields && parsed.fields.length] decides between the projection
    and the default triple; a truthy length on something that has no [map]
    method is a TypeError. *)
Definition mapFields (parsed : descriptor) (o : order) : res string :=
  match fields parsed with
  | VArr [] => Ok (default_text o)
  | VArr fs => Ok (Str.join " - " (map (field_text o) fs))
  | VPrim (PStr s) => if String.eqb s "" then Ok (default_text o) else Throw TypeError
  | VPrim _ => Ok (default_text o)
  | VObj p => if truthy (get p "length") then Throw TypeError else Ok (default_text o)
  end.

Fixpoint mapM {A B} (f : A -> res B) (l : list A) : res (list B) :=
  match l with
  | [] => Ok []
  | x :: t => y <- f x ;; r <- mapM f t ;; Ok (y :: r)
  end.

(** *** The intents *)

Definition count_text (filtered : list order) : string :=
  let totalOrders := PNum (of_Z (Z.of_nat (List.length filtered))) in
  let totalAmount :=
    fold_left (fun sum o => js_add sum (js_or (get o "amount") (PNum zero)))
              filtered (PNum zero) in
  let highestGp :=
    Math_max (map (fun o => toNumber (js_or (get o "gpRate") (PNum zero))) filtered) in
  "Total Sales Orders: " ++ toStringP totalOrders ++ nl ++
  "Total Amount: " ++ formatPeso totalAmount ++ nl ++
  "Highest GP Rate: " ++ toFixed2 highestGp ++ "%".

Definition top_text (label key : string) (filtered : list order) (parsed : descriptor)
  : string :=
  Str.join nl
    (mapi (fun e i => "Top " ++ rank_text i ++ " " ++ label ++ ": " ++ fst e ++
                      " - Total Amount: " ++ formatPeso (snd e))
          (top_groups key filtered parsed)).

(** The body of the [forEach] of [monthlyTotals]. *)
Definition month_step (parsed : descriptor) (monthlyMap : obj) (o : order) : res obj :=
  if negb (truthy (get o "date")) then Ok monthlyMap
  else if negb (status_allowed (get o "Status_TransH")) then Ok monthlyMap
  else
    a <- m_toLowerCase (get o "salesRep") ;;
    b <- mV_toLowerCase (salesRep parsed) ;;
    if negb (String.eqb a b) then Ok monthlyMap
    else
      d <- as_string (get o "date") ;;
      Ok (accumulate monthlyMap (Str.take 7 d) (get o "amount")).

Definition by_month (a b : string * prim) : num :=
  of_Z (localeCompare (fst a) (fst b)).

Definition month_lines (monthlyMap : obj) : list string :=
  map (fun e => fst e ++ ": " ++ formatPeso (snd e))
      (sort_by by_month (entries monthlyMap)).

Definition no_month_text (parsed : descriptor) : string :=
  "No valid sales orders found for " ++ toStringV (salesRep parsed) ++
  " in " ++ toStringV (year parsed).

Definition monthly_text (parsed : descriptor) (filtered : list order) : res string :=
  monthlyMap <- foldM (month_step parsed) filtered [] ;;
  let s := Str.join nl (month_lines monthlyMap) in
  Ok (if String.eqb s "" then no_month_text parsed else s).

Definition empty_text : string := "There are 0 sales orders matching your query.".

Definition formatResponse (orders : list order) (parsed : descriptor)
    (question : string) : res answer :=
  if is_str (intent parsed) "general" then Ok (AskModel question)
  else match orders with
  | [] => Ok (Text empty_text)
  | _ =>
    filtered <- refine orders parsed question ;;
    if is_str (intent parsed) "count" then Ok (Text (count_text filtered))
    else if is_str (intent parsed) "list" then
      ls <- mapM (mapFields parsed) filtered ;; Ok (Text (Str.join nl ls))
    else if is_str (intent parsed) "sample" then
      match filtered with
      | o :: _ => s <- mapFields parsed o ;; Ok (Text s)
      | [] => Ok (Text "No matching sales order found.")
      end
    else if is_str (intent parsed) "topCustomers" then
      Ok (Text (top_text "Customer" "Name_Cust" filtered parsed))
    else if is_str (intent parsed) "topDivision" then
      Ok (Text (top_text "Division" "division" filtered parsed))
    else if is_str (intent parsed) "topSales" then
      Ok (Text (top_text "Sales Personnel" "salesRep" filtered parsed))
    else if is_str (intent parsed) "monthlyTotals"
            && truthyV (year parsed) && truthyV (salesRep parsed) then
      s <- monthly_text parsed filtered ;; Ok (Text s)
    else Ok (AskModelWithData question (firstn 200 filtered))
  end.

(** The handler of [POST /chatbot]: translate, filter, answer; any
    exception becomes the 500 reply. *)
Inductive reply :=
| Reply200 (a : answer)
| Reply500.

Definition chatbot (allERPData : list order) (t : translation) (question : string)
  : reply :=
  let parsed := parseQuestionWithGPT t in
  match (filtered <- filterOrders allERPData parsed ;;
         formatResponse filtered parsed question) with
  | Ok a => Reply200 a
  | Throw _ => Reply500
  end.

End WithRuntime.

End Main.

(** ** The variant of src/unnamed/part_001 (PostgreSQL) *)

(** [parseInt(s)] in radix 10 or, after a [0x] prefix, 16: the longest
    prefix of digits is read, NaN when there is none. *)
Fixpoint radix_prefix (base acc : Z) (seen : bool) (s : string) : option Z :=
  match s with
  | EmptyString => if seen then Some acc else None
  | String c t =>
      match radix_digit c with
      | Some d =>
          if d <? base then radix_prefix base (base * acc + d) true t
          else if seen then Some acc else None
      | None => if seen then Some acc else None
      end
  end.

Definition parseInt (s : string) : num :=
  let (ng, t) := read_sign (Str.trimStart s) in
  let r :=
    match t with
    | String "0" (String "x" h) | String "0" (String "X" h) => radix_prefix 16 0 false h
    | _ => radix_prefix 10 0 false t
    end in
  match r with
  | Some v => mkFin (if ng then - v else v) 0
  | None => NaN
  end.

Module Pg.

(** [summarizeERPData], one row: a fresh object of eleven properties. *)
Definition summarizeOne (so : order) : order :=
  [ ("so_pk", get so "so_pk");
    ("so_number", js_or (get so "so_upk") (PStr "Unknown"));
    ("date_created", js_or (get so "DateCreated_TransH") PNull);
    ("amount", PNum (toNumber (js_or (get so "TotalAmount_TransH") (PNum zero))));
    ("gp_rate", PNum (parseFloat
        (strip_gp (toStringP (js_or (get so "gpRate") (PNum zero))))));
    ("status", js_or (get so "Status_TransH") (PStr "Unknown"));
    ("division", js_or (get so "Name_Dept") (PStr "Unknown"));
    ("salesRep", js_or (get so "Name_Empl") (PStr "Unknown"));
    ("customer", js_or (get so "Name_Cust") (PStr "Unknown"));
    ("contract_description", js_or (get so "ContractDescription_TransH") (PStr ""));
    ("memo", js_or (get so "Memo_TransH") (PStr "")) ].

Definition summarizeERPData (erpData : list order) : list order :=
  map summarizeOne erpData.

(** [mergeNewData], effect on the in-memory array: the rows of the batch
    whose [so_pk] is not yet in the array are pushed. *)
Definition existingSO (allERPData : list order) : list prim :=
  map (fun o => get o "so_pk") allERPData.

(** [existingSO.has(v)] *)
Definition set_has (s : list prim) (v : prim) : bool :=
  existsb (same_value_zero v) s.

Definition filteredNew (allERPData newData : list order) : list order :=
  filter (fun o => negb (set_has (existingSO allERPData) (get o "so_pk"))) newData.

Definition mergeNewData (allERPData newData : list order) : list order :=
  match filteredNew allERPData newData with
  | [] => allERPData
  | fresh => (allERPData ++ fresh)%list
  end.

Definition parseQuestionWithGPT (t : translation) : descriptor :=
  match Main.try_parse t with
  | Ok d => d
  | Throw _ =>
      {| intent := vstr "general"; date := vundef; year := vundef;
         gpThreshold := vundef; customer := vundef; salesRep := vundef;
         status := vundef; topN := vundef; fields := vundef |}
  end.

Section WithRuntime.
Context {rt : Runtime}.

Definition customer_match (parsed : descriptor) (o : order) : res bool :=
  a <- m_toLowerCase (get o "customer") ;;
  b <- mV_toLowerCase (customer parsed) ;;
  Ok (Str.includes a b).

Definition salesRep_match (parsed : descriptor) (o : order) : res bool :=
  a <- m_toLowerCase (get o "salesRep") ;;
  b <- mV_toLowerCase (salesRep parsed) ;;
  Ok (String.eqb a b).

Definition status_match (parsed : descriptor) (o : order) : res bool :=
  a <- m_toLowerCase (get o "status") ;;
  b <- mV_toLowerCase (status parsed) ;;
  Ok (String.eqb a b).

Definition date_match (parsed : descriptor) (o : order) : res bool :=
  d <- iso_day (new_Date (get o "date_created")) ;;
  Ok (strict_eqV (PStr d) (date parsed)).

Definition year_match (parsed : descriptor) (o : order) : bool :=
  Num.eq (m_getFullYear (new_Date (get o "date_created")))
         (parseInt (toStringV (year parsed))).

Definition filterOrders (orders : list order) (parsed : descriptor)
  : res (list order) :=
  f1 <- (if truthyV (customer parsed) then filterM (customer_match parsed) orders
         else Ok orders) ;;
  f2 <- (if truthyV (salesRep parsed) then filterM (salesRep_match parsed) f1
         else Ok f1) ;;
  f3 <- (if truthyV (status parsed) then filterM (status_match parsed) f2
         else Ok f2) ;;
  f4 <- (if truthyV (date parsed) then filterM (date_match parsed) f3
         else Ok f3) ;;
  Ok (if truthyV (year parsed) then filter (year_match parsed) f4 else f4).

Definition count_text (orders : list order) : string :=
  let totalAmount :=
    fold_left (fun sum o => js_add sum (get o "amount")) orders (PNum zero) in
  let highestGp := Math_max (map (fun o => toNumber (get o "gp_rate")) orders) in
  "Total Sales Orders: " ++ toStringP (PNum (of_Z (Z.of_nat (List.length orders)))) ++ nl ++
  "Total Amount: " ++ formatPeso totalAmount ++ nl ++
  "Highest GP Rate: " ++ toFixed2 highestGp ++ "%".

Definition list_line (o : order) : string :=
  "so_number: " ++ toStringP (get o "so_number") ++
  " - amount: " ++ formatPeso (get o "amount") ++
  " - gp_rate: " ++ toStringP (get o "gp_rate") ++
  "% - status: " ++ toStringP (get o "status").

Definition month_step (parsed : descriptor) (monthlyMap : obj) (o : order) : res obj :=
  if negb (truthy (get o "date_created")) then Ok monthlyMap
  else if negb (status_allowed (get o "status")) then Ok monthlyMap
  else
    a <- m_toLowerCase (get o "salesRep") ;;
    b <- mV_toLowerCase (salesRep parsed) ;;
    if negb (String.eqb a b) then Ok monthlyMap
    else
      d <- as_string (get o "date_created") ;;
      Ok (accumulate monthlyMap (Str.take 7 d) (get o "amount")).

Definition monthly_text (parsed : descriptor) (orders : list order) : res string :=
  monthlyMap <- foldM (month_step parsed) orders [] ;;
  let s := Str.join nl (Main.month_lines monthlyMap) in
  Ok (if String.eqb s "" then Main.no_month_text parsed else s).

Definition formatResponse (orders : list order) (parsed : descriptor)
    (question : string) : res answer :=
  if is_str (intent parsed) "general" then Ok (AskModel question)
  else match orders with
  | [] => Ok (Text "No matching sales orders.")
  | _ =>
    if is_str (intent parsed) "count" then Ok (Text (count_text orders))
    else if is_str (intent parsed) "list" then
      Ok (Text (Str.join nl (map list_line orders)))
    else if is_str (intent parsed) "topSales" then
      Ok (Text (Main.top_text "Sales Personnel" "salesRep" orders parsed))
    else if is_str (intent parsed) "topCustomers" then
      Ok (Text (Main.top_text "Customer" "customer" orders parsed))
    else if is_str (intent parsed) "topDivision" then
      Ok (Text (Main.top_text "Division" "division" orders parsed))
    else if is_str (intent parsed) "monthlyTotals"
            && truthyV (year parsed) && truthyV (salesRep parsed) then
      s <- monthly_text parsed orders ;; Ok (Text s)
    else Ok (Text "Intent not implemented yet.")
  end.

End WithRuntime.

End Pg.

(** ** The variant of src/unnamed/part_000 (JSON backup, PostgreSQL upsert) *)

Module Disk.

(** [summarizeERPData] is the one of the first variant. *)
Definition summarizeERPData := Main.summarizeERPData.

(** [mergeNewData], effect on the in-memory array: the rows whose [so_upk]
    occurs in the batch are dropped, then the batch is appended. *)
Definition superseded (newData : list order) (old : order) : bool :=
  existsb (fun n => strict_eq (get n "so_upk") (get old "so_upk")) newData.

Definition mergeNewData (allERPData newData : list order) : list order :=
  (filter (fun old => negb (superseded newData old)) allERPData ++ newData)%list.

Definition try_parse (t : translation) : res descriptor :=
  match t with
  | CallFails => Throw ExternalError
  | NotJSON => Throw SyntaxError
  | JNull => Throw TypeError
  | JPrim _ => Ok Main.defaults   (* every property of a primitive reads undefined *)
  | JObj d =>
      Ok {| intent := v_or (intent d) (vstr "general");
            date := v_or (date d) vnull;
            year := v_or (year d) vnull;
            gpThreshold := v_or (gpThreshold d) vnull;
            customer := v_or (customer d) vnull;
            salesRep := v_or (salesRep d) vnull;
            status := v_or (status d) vnull;
            topN := v_or (topN d) vnull;
            fields := v_or (fields d) (VArr []) |}
  end.

Definition parseQuestionWithGPT (t : translation) : descriptor :=
  match try_parse t with
  | Ok d => d
  | Throw _ => Main.defaults
  end.

Definition salesRep_match (parsed : descriptor) (o : order) : res bool :=
  a <- m_toLowerCase (js_or (get o "salesRep") (PStr "")) ;;
  b <- mV_toLowerCase (salesRep parsed) ;;
  Ok (String.eqb a b).

Definition year_prefix (parsed : descriptor) (o : order) : res bool :=
  s <- as_string (get o "date") ;;
  Ok (Str.startsWith s (toStringV (year parsed))).

Definition date_is (parsed : descriptor) (o : order) : bool :=
  strict_eqV (get o "date") (date parsed).

Definition status_match (parsed : descriptor) (o : order) : res bool :=
  a <- m_trim (js_or (get o "status") (PStr "")) ;;
  b <- mV_trim (status parsed) ;;
  Ok (String.eqb (Str.toLowerCase a) (Str.toLowerCase b)).

Definition filterOrders (orders : list order) (parsed : descriptor)
  : res (list order) :=
  f1 <- Main.by_customer parsed orders ;;
  let f2 := Main.by_gpThreshold parsed f1 in
  f3 <- (if truthyV (salesRep parsed) then filterM (salesRep_match parsed) f2
         else Ok f2) ;;
  f4 <- (if truthyV (year parsed) then filterM (year_prefix parsed) f3
         else Ok f3) ;;
  let f5 := if truthyV (date parsed) then filter (date_is parsed) f4 else f4 in
  if truthyV (status parsed) then filterM (status_match parsed) f5 else Ok f5.

End Disk.

(** ** The synchronisation loop *)

(** [preloadERPData], effect on the in-memory array, for a given
    [summarizeERPData] and [mergeNewData]; [up year] is what the upstream
    answers for the payload of that year. *)
Definition sync_year (fuel : nat)
    (summarize : list order -> list order)
    (merge : list order -> list order -> list order)
    (up : Z -> fetched) (allERPData : list order) : option (list order) :=
  match fetchAllSalesOrders fuel up with
  | Some rawData => Some (merge allERPData (summarize rawData))
  | None => None
  end.

Fixpoint preload_years (fuel : nat)
    (summarize : list order -> list order)
    (merge : list order -> list order -> list order)
    (up : Z -> Z -> fetched) (years : list Z) (allERPData : list order)
  : option (list order) :=
  match years with
  | [] => Some allERPData
  | y :: rest =>
      match sync_year fuel summarize merge (up y) allERPData with
      | Some all' => preload_years fuel summarize merge up rest all'
      | None => None
      end
  end.

Definition startYear : Z := 2020.

Definition year_range (endYear : Z) : list Z :=
  map (fun i => startYear + Z.of_nat i) (seq 0 (Z.to_nat (endYear - startYear + 1))).

Definition preloadERPData (fuel : nat)
    (summarize : list order -> list order)
    (merge : list order -> list order -> list order)
    (up : Z -> Z -> fetched) (endYear : Z) (allERPData : list order)
  : option (list order) :=
  preload_years fuel summarize merge up (year_range endYear) allERPData.

(** ** A reference runtime *)

(** The runtime used to evaluate the engine on examples: local time is UTC,
    [Date.parse] reads the calendar dates [YYYY-MM-DD] (which the language
    defines as UTC midnight) and rejects any other text, money is written
    with two decimals and grouped thousands, and [localeCompare] orders by
    code units. *)
Module Ref.

Definition is_leap (y : Z) : bool :=
  ((y mod 4 =? 0) && negb (y mod 100 =? 0)) || (y mod 400 =? 0).

Definition days_in_month (y m : Z) : Z :=
  if m =? 2 then (if is_leap y then 29 else 28)
  else if (m =? 4) || (m =? 6) || (m =? 9) || (m =? 11) then 30
  else 31.

Definition parse_date (s : string) : option Z :=
  let ys := Str.take 4 s in
  let ms := Str.take 2 (Str.drop 5 s) in
  let ds := Str.take 2 (Str.drop 8 s) in
  if (String.length s =? 10)%nat
     && all_digits ys && all_digits ms && all_digits ds
     && String.eqb (Str.take 1 (Str.drop 4 s)) "-"
     && String.eqb (Str.take 1 (Str.drop 7 s)) "-"
  then
    let y := digits_value 0 ys in
    let m := digits_value 0 ms in
    let d := digits_value 0 ds in
    if (1 <=? m) && (m <=? 12) && (1 <=? d) && (d <=? days_in_month y m)
    then Some (Cal.days_from_civil y m d * Cal.msPerDay)
    else None
  else None.

(** Commas between groups of three digits, counted from the right. *)
Fixpoint group3 (n : nat) (s : string) : string :=
  match s with
  | EmptyString => EmptyString
  | String c t =>
      let k := String.length t in
      String c (if (0 <? k)%nat && (Nat.modulo k 3 =? 0)%nat
                then String "," (group3 n t) else group3 n t)
  end.

Definition grouped2 (x : prim) : string :=
  match toNumber x with
  | Fin m e =>
      let s := toFixed2 (Fin (Z.abs m) e) in
      let k := (String.length s - 3)%nat in
      (if m <? 0 then "-" else "") ++ group3 0 (Str.take k s) ++ Str.drop k s
  | n => Num.toString n
  end.

Definition code_unit_order (a b : string) : Z :=
  match String.compare a b with
  | Lt => -1
  | Eq => 0
  | Gt => 1
  end.

#[export] Instance runtime : Runtime := {|
  formatPeso := fun x => "₱" ++ grouped2 x;
  toLocaleString2 := grouped2;
  localeCompare := code_unit_order;
  Date_parse := parse_date;
  localOffset := fun _ => 0
|}.

End Ref.

(* ================================================================== *)
(** * Part III — vocabulary of the properties and example inputs *)
(* ================================================================== *)

(** ** Paging *)

(** The page obtained by the request number [i], sent with offset
    [500 * i]. *)
Definition page (up : Z -> fetched) (i : nat) : list order :=
  first_page (callERP up (limit * Z.of_nat i)).

Definition full_page (p : list order) : Prop := limit <= Z.of_nat (List.length p).
Definition short_page (p : list order) : Prop := Z.of_nat (List.length p) < limit.

(** Everything fetched up to and including the page number [k]. *)
Definition pages_upto (up : Z -> fetched) (k : nat) : list order :=
  List.concat (map (page up) (seq 0 (S k))).

(** What the in-memory array becomes when the years are synchronised in
    turn, the year [y] contributing the rows [fetchedOf y]. *)
Definition merged_years
    (summarize : list order -> list order)
    (merge : list order -> list order -> list order)
    (fetchedOf : Z -> list order) (years : list Z) (allERPData : list order)
  : list order :=
  fold_left (fun acc y => merge acc (summarize (fetchedOf y))) years allERPData.

Definition demo_row : order := [("so_pk", PNum (of_Z 1))].

(** Year 2020: one page of 500 rows, then a request that throws; any other
    year: a single row. *)
Definition demo_upstream (y offset : Z) : fetched :=
  if y =? 2020 then
    if offset =? 0 then Body (Some [repeat demo_row 500]) else FetchThrows
  else Body (Some [[demo_row]]).

Definition demo_last (y : Z) : nat := if y =? 2020 then 1%nat else 0%nat.

(** ** Merging *)

(** The identity of a row in the PostgreSQL variant. *)
Definition identity (o : order) : prim := get o "so_pk".

(** The identity of the row is already in the in-memory array. *)
Definition known (allERPData : list order) (o : order) : bool :=
  Pg.set_has (Pg.existingSO allERPData) (identity o).

(** The identities of a batch that are not in [seen], each listed once. *)
Fixpoint new_identities (seen : list prim) (batch : list order) : list prim :=
  match batch with
  | [] => []
  | o :: t =>
      if Pg.set_has seen (identity o) then new_identities seen t
      else identity o :: new_identities (identity o :: seen) t
  end.

(** The number of genuinely new identities a batch brings. *)
Definition genuinely_new (allERPData batch : list order) : nat :=
  List.length (new_identities (Pg.existingSO allERPData) batch).

(** No identity occurs twice. *)
Fixpoint distinct (ids : list prim) : bool :=
  match ids with
  | [] => true
  | x :: t => negb (Pg.set_has t x) && distinct t
  end.

Definition dup_row : order := [("so_pk", PNum (of_Z 7)); ("so_upk", PStr "SO-7")].
Definition old_row : order := [("so_pk", PNum (of_Z 1)); ("so_upk", PStr "SO-1")].

(** ** Descriptor validation *)

Definition recognized_intents : list string :=
  [ "count"; "list"; "sample"; "topCustomers"; "topDivision"; "topSales";
    "monthlyTotals"; "general" ].

Definition recognized (v : value) : bool :=
  existsb (is_str v) recognized_intents.

(** [out] is the translator's value [raw] when it is truthy, and the
    default otherwise. *)
Definition filled (raw out dflt : value) : Prop :=
  if truthyV raw then out = raw else out = dflt.

Definition no_constraint : descriptor :=
  {| intent := vundef; date := vundef; year := vundef; gpThreshold := vundef;
     customer := vundef; salesRep := vundef; status := vundef; topN := vundef;
     fields := vundef |}.

Definition with_intent (s : string) (d : descriptor) : descriptor :=
  {| intent := vstr s; date := date d; year := year d;
     gpThreshold := gpThreshold d; customer := customer d;
     salesRep := salesRep d; status := status d; topN := topN d;
     fields := fields d |}.

Definition forecast_json : translation := JObj (with_intent "forecast" no_constraint).

(** ** Counting *)

Definition raw_ann : order :=
  [ ("so_pk", PNum (of_Z 1)); ("so_upk", PStr "SO-1");
    ("Name_Cust", PStr "Acme"); ("Name_Empl", PStr "Ann");
    ("TotalAmount_TransH", PNum (of_Z 1000)); ("gpRate", PStr "60%");
    ("Status_TransH", PStr "BILLED"); ("DateCreated_TransH", PStr "2024-03-01") ].

(** The in-memory array after the synchronisation of that one row. *)
Definition cached_ann : list order :=
  Main.mergeNewData [] (Main.summarizeERPData [raw_ann]).

Definition count_for_bob : translation :=
  JObj {| intent := vstr "count"; date := vundef; year := vundef;
          gpThreshold := vundef; customer := vundef; salesRep := vstr "Bob";
          status := vundef; topN := vundef; fields := vundef |}.

(** ** Normalization *)

(** The text handed to [parseFloat] for the gross-profit rate. *)
Definition gp_text (so : order) : string :=
  strip_gp (toStringP (js_or (get so "gpRate") (PStr "0"))).

Definition starts_with_minus (s : string) : bool :=
  match Str.trimStart s with
  | String "-" _ => true
  | _ => false
  end.

(** NaN, positive infinity, or a finite number that is not negative. *)
Definition not_negative (n : num) : Prop :=
  match n with
  | NaN | PInf => True
  | NInf => False
  | Fin m _ => 0 <= m
  end.

Definition na_row : order :=
  [ ("so_pk", PNum (of_Z 9)); ("gpRate", PStr "N/A");
    ("TotalAmount_TransH", PStr "-12.5") ].

(** ** Filtering *)

(** A constraint holds of a row when its test returns [true]; a test that
    throws does not hold. *)
Definition satisfied (c : order -> res bool) (o : order) : bool :=
  match c o with
  | Ok true => true
  | _ => false
  end.

(** The conjunction of a list of constraints. *)
Definition satisfies_all (cs : list (order -> res bool)) (o : order) : bool :=
  forallb (fun c => satisfied c o) cs.

Module MainSpec.
Section WithRuntime.
Context {rt : Runtime}.

(** The filtered set over which chat-main computes its answer: the result
    of filterOrders, refined by the filters at the head of formatResponse
    unless it is empty already. *)
Definition answered_over (orders : list order) (parsed : descriptor)
    (question : string) : res (list order) :=
  f <- Main.filterOrders orders parsed ;;
  match f with
  | [] => Ok []
  | _ => Main.refine f parsed question
  end.

(** The constraints of chat-main, one per filter; a constraint that the
    descriptor does not supply holds of every row. *)
Definition c_customer (parsed : descriptor) (o : order) : res bool :=
  if truthyV (customer parsed) then
    kw <- mV_toLowerCase (customer parsed) ;; Main.customer_match kw o
  else Ok true.

Definition c_gpThreshold (parsed : descriptor) (o : order) : res bool :=
  if truthyV (gpThreshold parsed) then
    Ok (Main.gp_match (getV (gpThreshold parsed) "operator")
                      (getV (gpThreshold parsed) "value") o)
  else Ok true.

Definition c_date_is (parsed : descriptor) (o : order) : res bool :=
  if truthyV (date parsed) then Ok (Main.date_is parsed o) else Ok true.

Definition c_year (parsed : descriptor) (o : order) : res bool :=
  if truthyV (year parsed) then Main.year_prefix parsed o else Ok true.

Definition c_salesRep (parsed : descriptor) (o : order) : res bool :=
  if truthyV (salesRep parsed) then Main.salesRep_match parsed o else Ok true.

Definition c_same_day (parsed : descriptor) (o : order) : res bool :=
  if truthyV (date parsed) then
    targetDate <- iso_day (new_DateV (date parsed)) ;; Main.same_day targetDate o
  else Ok true.

Definition c_status (parsed : descriptor) (o : order) : res bool :=
  if truthyV (status parsed) then Main.status_match parsed o else Ok true.

(** The one constraint that comes from the question and not from the
    descriptor. *)
Definition c_september (question : string) (o : order) : res bool :=
  if Main.mentions_september question then Ok (Main.in_september_2025 o)
  else Ok true.

Definition constraints (parsed : descriptor) (question : string)
  : list (order -> res bool) :=
  [ c_customer parsed; c_gpThreshold parsed; c_date_is parsed; c_year parsed;
    c_salesRep parsed; c_same_day parsed; c_status parsed; c_september question ].

End WithRuntime.
End MainSpec.

Definition list_everything : descriptor :=
  Main.parseQuestionWithGPT (JObj (with_intent "list" no_constraint)).

Definition count_low_margin : descriptor :=
  Main.parseQuestionWithGPT
    (JObj {| intent := vstr "count"; date := vundef; year := vundef;
             gpThreshold := VObj [("operator", PStr "<"); ("value", PNum (of_Z 10))];
             customer := vundef; salesRep := vundef; status := vundef;
             topN := vundef; fields := vundef |}).

Definition pg_ann : list order := Pg.summarizeERPData [raw_ann].

(** ** Rows on which the filters are defined *)

Definition is_text (v : prim) : bool :=
  match v with
  | PStr _ => true
  | _ => false
  end.

Definition is_textV (v : value) : bool :=
  match v with
  | VPrim (PStr _) => true
  | _ => false
  end.

(** A string, or a value that [||] replaces by its default. *)
Definition text_or_falsy (v : prim) : bool := is_text v || negb (truthy v).

Definition textV_or_falsy (v : value) : bool := is_textV v || negb (truthyV v).

(** An upstream row without DateCreated_TransH. *)
Definition undated_raw : order :=
  [ ("so_pk", PNum (of_Z 3)); ("so_upk", PStr "SO-3"); ("Name_Cust", PStr "Acme");
    ("TotalAmount_TransH", PNum (of_Z 10)) ].

Definition undated_main : list order :=
  Main.mergeNewData [] (Main.summarizeERPData [undated_raw]).

Definition undated_pg : list order := Pg.summarizeERPData [undated_raw].

Definition zenith_in_2024 : descriptor :=
  Main.parseQuestionWithGPT
    (JObj {| intent := vstr "list"; date := vundef; year := vstr "2024";
             gpThreshold := vundef; customer := vstr "zenith"; salesRep := vundef;
             status := vundef; topN := vundef; fields := vundef |}).

Definition all_of_2024 : descriptor :=
  Main.parseQuestionWithGPT
    (JObj {| intent := vstr "list"; date := vundef; year := vstr "2024";
             gpThreshold := vundef; customer := vundef; salesRep := vundef;
             status := vundef; topN := vundef; fields := vundef |}).

Definition on_march_first : descriptor :=
  Main.parseQuestionWithGPT
    (JObj {| intent := vstr "list"; date := vstr "2024-03-01"; year := vundef;
             gpThreshold := vundef; customer := vundef; salesRep := vundef;
             status := vundef; topN := vundef; fields := vundef |}).

(** ** Sorting *)

(** [x] is placed after [y] by a sort with comparator [c]. *)
Definition placed_after {A} (c : A -> A -> num) (x y : A) : bool :=
  Num.gt (c x y) zero.

(** Neither is placed after the other. *)
Definition tied {A} (c : A -> A -> num) (x y : A) : bool :=
  negb (placed_after c x y) && negb (placed_after c y x).

(** A comparator is consistent when being placed after is asymmetric and
    its negation is transitive. *)
Definition consistent {A} (c : A -> A -> num) (dom : A -> Prop) : Prop :=
  (forall x y, dom x -> dom y ->
     placed_after c x y = true -> placed_after c y x = false)
  /\ (forall x y z, dom x -> dom y -> dom z ->
        placed_after c x y = false -> placed_after c y z = false ->
        placed_after c x z = false).

(** ** Monthly totals *)

(** The rows that [monthlyTotals] adds up, in chat-main. *)
Definition qualifies (parsed : descriptor) (o : order) : bool :=
  truthy (get o "date") && status_allowed (get o "Status_TransH")
  && match m_toLowerCase (get o "salesRep"), mV_toLowerCase (salesRep parsed) with
     | Ok a, Ok b => String.eqb a b
     | _, _ => false
     end.

(** The first seven characters of the date of a row. *)
Definition month_of (o : order) : string :=
  match get o "date" with
  | PStr d => Str.take 7 d
  | _ => ""
  end.

Definition monthly_sums (parsed : descriptor) (l : list order) : obj :=
  fold_left (fun m o => accumulate m (month_of o) (get o "amount"))
            (filter (qualifies parsed) l) [].

Definition monthly (y rep : value) : descriptor :=
  Main.parseQuestionWithGPT
    (JObj {| intent := vstr "monthlyTotals"; date := vundef; year := y;
             gpThreshold := vundef; customer := vundef; salesRep := rep;
             status := vundef; topN := vundef; fields := vundef |}).

Definition raw_ann_april : order :=
  [ ("so_pk", PNum (of_Z 2)); ("so_upk", PStr "SO-2");
    ("Name_Cust", PStr "Borealis"); ("Name_Empl", PStr "Ann");
    ("TotalAmount_TransH", PStr "250.50"); ("gpRate", PStr "41.5%");
    ("Status_TransH", PStr "JO IN-PROCESS"); ("DateCreated_TransH", PStr "2024-04-11") ].

(** Two rows of Ann, April before March. *)
Definition cached_two : list order :=
  Main.mergeNewData [] (Main.summarizeERPData [raw_ann_april; raw_ann]).

Definition monthly_ann_2024 : descriptor := monthly (vstr "2024") (vstr "ann").
Definition monthly_without_year : descriptor := monthly vundef (vstr "ann").

(** ** Ranking *)

(** The name of the group a row belongs to. *)
Definition group_name (key : string) (o : order) : string := toStringP (get o key).

(** The names of a list, each once, in the order of their first
    occurrence. *)
Fixpoint add_new (seen : list string) (names : list string) : list string :=
  match names with
  | [] => seen
  | n :: t =>
      add_new (if existsb (String.eqb n) seen then seen else seen ++ [n])%list t
  end.

Definition first_seen (names : list string) : list string := add_new [] names.

(** One step of the grouping loop. *)
Definition group_step (key : string) (m : obj) (o : order) : obj :=
  accumulate m (group_name key o) (get o "amount").

Definition is_fin (v : prim) : bool :=
  match v with
  | PNum (Fin _ _) => true
  | _ => false
  end.

(** The sum of the amounts of the rows of a group. *)
Definition group_total (key name : string) (l : list order) : num :=
  fold_left Num.add
    (map (fun o => toNumber (get o "amount"))
         (filter (fun o => String.eqb (group_name key o) name) l))
    zero.

(** The ranked intents with the label and the grouping property of each. *)
Definition ranked_intents : list (string * (string * string)) :=
  [ ("topCustomers", ("Customer", "Name_Cust"));
    ("topDivision", ("Division", "division"));
    ("topSales", ("Sales Personnel", "salesRep")) ].

Definition rank_line {rt : Runtime} (label : string) (e : string * prim) (i : nat)
  : string :=
  "Top " ++ rank_text i ++ " " ++ label ++ ": " ++ fst e ++
  " - Total Amount: " ++ formatPeso (snd e).

(** A finite number in canonical form as far as zero is concerned. *)
Definition clean (v : num) : Prop :=
  exists m e, v = Fin m e /\ (m = 0 -> e = 0).

(** The amounts of the rows of a group, in row order. *)
Definition amounts (key name : string) (l : list order) : list num :=
  map (fun o => toNumber (get o "amount"))
      (filter (fun o => String.eqb (group_name key o) name) l).

(** What a group map holds for a name before further rows are added. *)
Definition start (m0 : obj) (name : string) : num :=
  if has m0 name then toNumber (get m0 name) else zero.

Definition stored_clean (m : obj) : Prop :=
  forall name, has m name = true -> exists v, get m name = PNum v /\ clean v.

Definition top_customers (n : value) : descriptor :=
  Main.parseQuestionWithGPT
    (JObj {| intent := vstr "topCustomers"; date := vundef; year := vundef;
             gpThreshold := vundef; customer := vundef; salesRep := vundef;
             status := vundef; topN := n; fields := vundef |}).

(** Two customers whose names are numerals, with equal amounts; "10" comes
    first. *)
Definition numbered_raw : list order :=
  [ [ ("so_pk", PNum (of_Z 11)); ("Name_Cust", PStr "10");
      ("TotalAmount_TransH", PNum (of_Z 5)); ("DateCreated_TransH", PStr "2024-05-02") ];
    [ ("so_pk", PNum (of_Z 12)); ("Name_Cust", PStr "7");
      ("TotalAmount_TransH", PNum (of_Z 5)); ("DateCreated_TransH", PStr "2024-05-03") ] ].

Definition numbered : list order :=
  Main.mergeNewData [] (Main.summarizeERPData numbered_raw).

(** ** Idempotence of the normalization *)

(** A text without ["%"] and without [","]. *)
Fixpoint plain (s : string) : bool :=
  match s with
  | EmptyString => true
  | String c t => negb (Ascii.eqb c "%") && negb (Ascii.eqb c ",") && plain t
  end.

(** What [parseFloat] can return besides NaN. *)
Definition well_formed (g : num) : Prop :=
  match g with
  | NaN => False
  | PInf | NInf => True
  | Fin m e => (m = 0 /\ e = 0) \/ m mod 10 <> 0
  end.

(** The row of part_001 once normalized twice: only so_pk survives. *)
Definition pg_blank (so : order) : order :=
  [ ("so_pk", get so "so_pk"); ("so_number", PStr "Unknown");
    ("date_created", PNull); ("amount", PNum zero); ("gp_rate", PNum zero);
    ("status", PStr "Unknown"); ("division", PStr "Unknown");
    ("salesRep", PStr "Unknown"); ("customer", PStr "Unknown");
    ("contract_description", PStr ""); ("memo", PStr "") ].

(** ** Digits *)

(** The digits written for [n], as a specification: they are digits, there
    is at least one, and read back after [a] they give [a * 10^len + n]. *)
Definition writes (ds : string) (n : Z) : Prop :=
  all_digits ds = true /\ ds <> ""
  /\ forall a, digits_value a ds = a * 10 ^ Z.of_nat (String.length ds) + n.

(** The digit prefix of a text that continues with something else than a
    digit. *)
Definition no_digit_ahead (r : string) : bool :=
  match r with
  | EmptyString => true
  | String c _ => negb (is_digit c)
  end.

(** ** Further example inputs *)

Definition fifty_five_row : order :=
  [ ("so_pk", PNum (of_Z 5)); ("so_upk", PStr "SO-5"); ("gpRate", PStr "55.5%") ].

(** A row whose customer name is a number. *)
Definition numeric_customer_pg : list order :=
  Pg.summarizeERPData
    [ [ ("so_pk", PNum (of_Z 4)); ("Name_Cust", PNum (of_Z 42));
        ("DateCreated_TransH", PStr "2024-01-15") ] ].

(* ================================================================== *)
(** * Part IV — properties *)
(* ================================================================== *)

(** ** Paging (fetchAllSalesOrders, callERP, preloadERPData) *)

Lemma failed_fetch_is_empty_page (up : Z -> fetched) (offset : Z) :
  up offset = FetchThrows -> first_page (callERP up offset) = [].
Proof.
  intros H. unfold callERP. rewrite H. reflexivity.
Qed.

Lemma empty_page_is_short : short_page [].
Proof. unfold short_page, limit. simpl. lia. Qed.

Lemma fetch_loop_spec (up : Z -> fetched) (k : nat) :
  forall (fuel j : nat) (acc : list order),
    (forall i, (i < k)%nat -> full_page (page up (j + i))) ->
    short_page (page up (j + k)) ->
    (k < fuel)%nat ->
    fetch_loop fuel up acc (limit * Z.of_nat j)
    = Some (acc ++ List.concat (map (page up) (seq j (S k))))%list.
Proof.
  induction k as [|k IH]; intros fuel j acc Hfull Hshort Hfuel.
  - destruct fuel as [|fuel]; [lia|].
    rewrite Nat.add_0_r in Hshort. unfold short_page, page in Hshort.
    cbn [fetch_loop]. apply Z.ltb_lt in Hshort. rewrite Hshort.
    unfold page. cbn [seq map List.concat]. now rewrite app_nil_r.
  - destruct fuel as [|fuel]; [lia|].
    assert (Hj : full_page (page up j)).
    { specialize (Hfull O). rewrite Nat.add_0_r in Hfull. apply Hfull. lia. }
    unfold full_page, page in Hj.
    cbn [fetch_loop].
    assert (Hlt : (Z.of_nat (List.length (first_page (callERP up (limit * Z.of_nat j))))
                   <? limit) = false) by (apply Z.ltb_ge; exact Hj).
    rewrite Hlt.
    replace (limit * Z.of_nat j + limit) with (limit * Z.of_nat (S j)) by lia.
    rewrite (IH fuel (S j)).
    + rewrite <- app_assoc. reflexivity.
    + intros i Hi. replace (S j + i)%nat with (j + S i)%nat by lia.
      apply Hfull. lia.
    + replace (S j + k)%nat with (j + S k)%nat by lia. exact Hshort.
    + lia.
Qed.

Lemma fetchAllSalesOrders_spec (up : Z -> fetched) (k fuel : nat) :
  (forall i, (i < k)%nat -> full_page (page up i)) ->
  short_page (page up k) ->
  (k < fuel)%nat ->
  fetchAllSalesOrders fuel up = Some (pages_upto up k).
Proof.
  intros Hfull Hshort Hfuel. unfold fetchAllSalesOrders, pages_upto.
  change 0 with (limit * Z.of_nat 0).
  rewrite (fetch_loop_spec up k fuel 0 []); auto.
Qed.

Lemma preload_years_spec fuel summarize merge
    (up : Z -> Z -> fetched) (last : Z -> nat) (years : list Z) :
  (forall y, In y years ->
     (forall i, (i < last y)%nat -> full_page (page (up y) i)) /\
     short_page (page (up y) (last y)) /\ (last y < fuel)%nat) ->
  forall allERPData,
    preload_years fuel summarize merge up years allERPData
    = Some (merged_years summarize merge
              (fun y => pages_upto (up y) (last y)) years allERPData).
Proof.
  induction years as [|y rest IH]; intros H allERPData.
  - reflexivity.
  - destruct (H y (or_introl eq_refl)) as (Hf & Hs & Hl).
    cbn [preload_years]. unfold sync_year.
    rewrite (fetchAllSalesOrders_spec (up y) (last y) fuel Hf Hs Hl).
    rewrite IH; [reflexivity|]. intros y' Hy'. apply H. now right.
Qed.



(** ** Equality of primitives *)

Lemma cmp_refl (a : num) : a <> NaN -> Num.cmp a a = Some Eq.
Proof.
  destruct a; intros H; try reflexivity; [congruence|].
  simpl. now rewrite Z.compare_refl.
Qed.

Lemma cmp_eq_sym (a b : num) : Num.cmp a b = Some Eq -> Num.cmp b a = Some Eq.
Proof.
  destruct a, b; simpl; intros H; try congruence.
  injection H as H. apply Z.compare_eq_iff in H.
  rewrite (Z.min_comm e0 e). rewrite H. now rewrite Z.compare_refl.
Qed.

Lemma num_eq_sym (a b : num) : Num.eq a b = Num.eq b a.
Proof.
  unfold Num.eq.
  destruct (Num.cmp a b) as [[]|] eqn:E1; destruct (Num.cmp b a) as [[]|] eqn:E2;
    try reflexivity;
    try (apply cmp_eq_sym in E1; congruence);
    try (apply cmp_eq_sym in E2; congruence).
Qed.

Lemma strict_eq_sym (a b : prim) : strict_eq a b = strict_eq b a.
Proof.
  destruct a, b; simpl; try reflexivity.
  - now destruct b, b0.
  - apply num_eq_sym.
  - apply String.eqb_sym.
Qed.

Lemma same_value_zero_sym (a b : prim) : same_value_zero a b = same_value_zero b a.
Proof.
  destruct a as [| | |[]|], b as [| | |[]|]; try reflexivity;
    unfold same_value_zero; apply strict_eq_sym.
Qed.

Lemma same_value_zero_refl (a : prim) : same_value_zero a a = true.
Proof.
  destruct a as [| |b|n|s]; try reflexivity.
  - now destruct b.
  - destruct n; try reflexivity.
    unfold same_value_zero, strict_eq, Num.eq.
    rewrite cmp_refl; [reflexivity | discriminate].
  - simpl. apply String.eqb_refl.
Qed.

(** ** Merging (mergeNewData) *)

Lemma filter_nil_when_none {A} (p : A -> bool) (l : list A) :
  (forall x, In x l -> p x = false) -> filter p l = [].
Proof.
  induction l as [|x l IH]; intros H; [reflexivity|].
  simpl. rewrite (H x (or_introl eq_refl)). apply IH.
  intros y Hy. apply H. now right.
Qed.

Lemma set_has_app (s1 s2 : list prim) (v : prim) :
  Pg.set_has (s1 ++ s2) v = Pg.set_has s1 v || Pg.set_has s2 v.
Proof. unfold Pg.set_has. apply existsb_app. Qed.

Lemma set_has_identity (l : list order) (o : order) :
  In o l -> Pg.set_has (Pg.existingSO l) (identity o) = true.
Proof.
  intros H. unfold Pg.set_has, Pg.existingSO. apply existsb_exists.
  exists (identity o). split.
  - apply in_map_iff. now exists o.
  - apply same_value_zero_refl.
Qed.

Lemma Pg_merge_app (allERPData newData : list order) :
  Pg.mergeNewData allERPData newData
  = (allERPData ++ Pg.filteredNew allERPData newData)%list.
Proof.
  unfold Pg.mergeNewData.
  destruct (Pg.filteredNew allERPData newData); [now rewrite app_nil_r | reflexivity].
Qed.

Lemma Pg_merge_twice (allERPData newData : list order) :
  Pg.mergeNewData (Pg.mergeNewData allERPData newData) newData
  = Pg.mergeNewData allERPData newData.
Proof.
  rewrite (Pg_merge_app allERPData newData).
  remember (Pg.filteredNew allERPData newData) as fresh eqn:Hfresh.
  rewrite Pg_merge_app.
  assert (Hnone : Pg.filteredNew (allERPData ++ fresh) newData = []).
  { unfold Pg.filteredNew. apply filter_nil_when_none.
    intros o Ho. apply negb_false_iff.
    unfold Pg.existingSO. rewrite map_app, set_has_app.
    match goal with |- ?a || _ = true => destruct a eqn:E end; [reflexivity|].
    cbn [orb]. apply (set_has_identity fresh o).
    subst fresh. unfold Pg.filteredNew. apply filter_In. split; [exact Ho|].
    apply negb_true_iff. exact E. }
  rewrite Hnone. apply app_nil_r.
Qed.

Lemma new_identities_ext (t : list order) :
  forall seen seen' : list prim,
    (forall o, In o t -> Pg.set_has seen (identity o) = Pg.set_has seen' (identity o)) ->
    List.length (new_identities seen t) = List.length (new_identities seen' t).
Proof.
  induction t as [|o t IH]; intros seen seen' H; [reflexivity|].
  cbn [new_identities]. rewrite <- (H o (or_introl eq_refl)).
  destruct (Pg.set_has seen (identity o)).
  - apply IH. intros o' Ho'. apply H. now right.
  - cbn [List.length]. f_equal. apply IH. intros o' Ho'.
    unfold Pg.set_has. cbn [existsb]. f_equal.
    apply (H o'). now right.
Qed.

Lemma new_identities_skip (t : list order) (seen : list prim) (x : prim) :
  Pg.set_has (map identity t) x = false ->
  List.length (new_identities (x :: seen) t) = List.length (new_identities seen t).
Proof.
  intros H. apply new_identities_ext. intros o Ho.
  unfold Pg.set_has. cbn [existsb].
  replace (same_value_zero (identity o) x) with false; [reflexivity|].
  symmetry. rewrite same_value_zero_sym.
  unfold Pg.set_has in H.
  destruct (same_value_zero x (identity o)) eqn:E; [|reflexivity].
  assert (existsb (same_value_zero x) (map identity t) = true).
  { apply existsb_exists. exists (identity o). split; [now apply in_map|exact E]. }
  congruence.
Qed.

Lemma new_identities_count (batch : list order) :
  forall seen : list prim,
    distinct (map identity batch) = true ->
    List.length (new_identities seen batch)
    = List.length (filter (fun o => negb (Pg.set_has seen (identity o))) batch).
Proof.
  induction batch as [|o t IH]; intros seen H; [reflexivity|].
  cbn [map distinct] in H. apply andb_true_iff in H as [Ho Ht].
  apply negb_true_iff in Ho.
  cbn [new_identities filter].
  destruct (Pg.set_has seen (identity o)); cbn [negb].
  - now apply IH.
  - cbn [List.length]. f_equal.
    rewrite new_identities_skip by exact Ho. now apply IH.
Qed.

Lemma new_identities_le (batch : list order) :
  forall seen : list prim,
    (List.length (new_identities seen batch)
     <= List.length (filter (fun o => negb (Pg.set_has seen (identity o))) batch))%nat.
Proof.
  induction batch as [|o t IH]; intros seen; [apply le_n|].
  cbn [new_identities filter].
  destruct (Pg.set_has seen (identity o)) eqn:E; cbn [negb].
  - apply IH.
  - cbn [List.length]. apply le_n_S.
    eapply Nat.le_trans; [apply IH|].
    clear IH. induction t as [|o' t IHt]; [apply le_n|].
    cbn [filter]. unfold Pg.set_has at 1. cbn [existsb].
    fold (Pg.set_has seen (identity o')).
    destruct (same_value_zero (identity o') (identity o)); cbn [orb negb].
    + destruct (Pg.set_has seen (identity o')); cbn [negb List.length]; lia.
    + destruct (Pg.set_has seen (identity o')); cbn [negb List.length]; lia.
Qed.

(** C1 (as amended). In the variant that merges into the existing array
    (part_001): the array after the merge is the array before it followed by
    the rows of the batch whose identity was not in the array, in batch
    order; so no row with a known identity is added, earlier rows stay where
    they are, and the size grows by the number of batch rows with an unknown
    identity, which is at least the number of genuinely new identities and
    exactly that number when no identity is repeated inside the batch; a
    second merge of the same batch changes nothing.  In the first variant a
    second merge of the same batch leaves the size unchanged as well. *)
Theorem C1_merge_adds_rows_of_unknown_identity (allERPData batch : list order) :
  Pg.mergeNewData allERPData batch
    = (allERPData ++ filter (fun o => negb (known allERPData o)) batch)%list
  /\ (forall o, In o (Pg.filteredNew allERPData batch) -> known allERPData o = false)
  /\ firstn (List.length allERPData) (Pg.mergeNewData allERPData batch) = allERPData
  /\ (List.length allERPData + genuinely_new allERPData batch
      <= List.length (Pg.mergeNewData allERPData batch))%nat
  /\ (distinct (map identity batch) = true ->
      List.length (Pg.mergeNewData allERPData batch)
      = (List.length allERPData + genuinely_new allERPData batch)%nat)
  /\ Pg.mergeNewData (Pg.mergeNewData allERPData batch) batch
     = Pg.mergeNewData allERPData batch
  /\ List.length (Main.mergeNewData (Main.mergeNewData allERPData batch) batch)
     = List.length (Main.mergeNewData allERPData batch).
Proof.
  rewrite Pg_merge_app.
  split; [reflexivity|].
  split.
  { intros o Ho. unfold Pg.filteredNew in Ho. apply filter_In in Ho as [_ Ho].
    now apply negb_true_iff in Ho. }
  split.
  { rewrite firstn_app, Nat.sub_diag, firstn_all. cbn [firstn]. apply app_nil_r. }
  split.
  { rewrite length_app. apply Nat.add_le_mono_l.
    unfold genuinely_new, Pg.filteredNew. apply new_identities_le. }
  split.
  { intros Hd. rewrite length_app. f_equal.
    unfold genuinely_new, Pg.filteredNew. symmetry. now apply new_identities_count. }
  split.
  { rewrite <- Pg_merge_app. apply Pg_merge_twice. }
  unfold Main.mergeNewData. now rewrite !length_map.
Qed.

(** C1, counterexample: a batch that repeats a new identity brings one
    genuinely new identity and makes the array grow by two rows, in each of
    the three variants. *)
Lemma C1_counterexample_repeated_identity :
  genuinely_new [] [dup_row; dup_row] = 1%nat
  /\ List.length (Pg.mergeNewData [] [dup_row; dup_row]) = 2%nat
  /\ List.length (Main.mergeNewData [] [dup_row; dup_row]) = 2%nat
  /\ List.length (Disk.mergeNewData [] [dup_row; dup_row]) = 2%nat
  /\ ~ (List.length (Pg.mergeNewData [] [dup_row; dup_row])
        <= List.length (@nil order) + genuinely_new [] [dup_row; dup_row])%nat.
Proof.
  repeat split; try reflexivity.
  vm_compute. intros H. repeat (apply le_S_n in H). inversion H.
Qed.

(** In the first variant the assignment replaces the array: a row merged
    earlier is gone after the merge of another batch. *)
Lemma Main_merge_drops_earlier_rows :
  Main.mergeNewData [old_row] [dup_row] = [Main.coerce_row dup_row]
  /\ existsb (fun o => strict_eq (get o "so_pk") (get old_row "so_pk"))
             (Main.mergeNewData [old_row] [dup_row]) = false.
Proof. split; reflexivity. Qed.

(** ** Descriptor validation (parseQuestionWithGPT) *)

Lemma filled_v_or (raw dflt : value) : filled raw (v_or raw dflt) dflt.
Proof. unfold filled, v_or. now destruct (truthyV raw). Qed.

Lemma Disk_parse_is_Main_parse (t : translation) :
  Disk.parseQuestionWithGPT t = Main.parseQuestionWithGPT t.
Proof.
  destruct t; reflexivity.
Qed.

(** C9 (as amended). parseQuestionWithGPT is total.  When the translator
    call or JSON.parse throws, or the JSON is not an object, the descriptor
    is the default one: intent "general", every scalar property null, fields
    empty.  When the JSON is an object, each recognized property is kept if
    it is truthy and replaced by its default otherwise ("general" for
    intent, the empty sequence for fields, null for the others); an intent
    that is truthy is kept whether or not it is one of the recognized
    intents.  The third variant computes the same descriptor; the second one
    differs only when the translator fails, where it returns the intent
    alone. *)
Theorem C9_descriptor_defaults (t : translation) :
  match t with
  | JObj r =>
      let d := Main.parseQuestionWithGPT t in
      filled (intent r) (intent d) (vstr "general")
      /\ filled (date r) (date d) vnull
      /\ filled (year r) (year d) vnull
      /\ filled (gpThreshold r) (gpThreshold d) vnull
      /\ filled (customer r) (customer d) vnull
      /\ filled (salesRep r) (salesRep d) vnull
      /\ filled (status r) (status d) vnull
      /\ filled (topN r) (topN d) vnull
      /\ filled (fields r) (fields d) (VArr [])
      /\ Pg.parseQuestionWithGPT t = d
  | _ =>
      Main.parseQuestionWithGPT t = Main.defaults
      /\ intent (Pg.parseQuestionWithGPT t) = vstr "general"
  end
  /\ Disk.parseQuestionWithGPT t = Main.parseQuestionWithGPT t.
Proof.
  split; [|apply Disk_parse_is_Main_parse].
  destruct t as [| | |p|r]; try (split; reflexivity).
  cbn zeta. unfold Main.parseQuestionWithGPT, Pg.parseQuestionWithGPT.
  cbn [Main.try_parse Main.fill intent date year gpThreshold customer salesRep
       status topN fields].
  repeat split; apply filled_v_or.
Qed.

(** C9, counterexample: an intent outside the recognized ones is not turned
    into "general"; and in the second variant a failed translation leaves
    the optional properties undefined instead of null or empty. *)
Lemma C9_counterexample_unrecognized_intent_is_kept :
  recognized (vstr "forecast") = false
  /\ intent (Main.parseQuestionWithGPT forecast_json) = vstr "forecast"
  /\ intent (Pg.parseQuestionWithGPT forecast_json) = vstr "forecast"
  /\ intent (Disk.parseQuestionWithGPT forecast_json) = vstr "forecast"
  /\ fields (Pg.parseQuestionWithGPT NotJSON) = vundef
  /\ customer (Pg.parseQuestionWithGPT NotJSON) = vundef.
Proof. repeat split; reflexivity. Qed.

(** ** The order on numbers *)

Lemma pow10_pos (k : Z) : 0 <= k -> 0 < 10 ^ k.
Proof. intros H. apply Z.pow_pos_nonneg; lia. Qed.

Lemma pow10_split (a b : Z) : 0 <= a -> 0 <= b -> 10 ^ (a + b) = 10 ^ a * 10 ^ b.
Proof. intros. now apply Z.pow_add_r. Qed.

(** Two decimals are compared at any common exponent below theirs. *)
Lemma cmp_scale (m1 e1 m2 e2 E : Z) :
  E <= e1 -> E <= e2 ->
  Num.cmp (Fin m1 e1) (Fin m2 e2)
  = Some (Z.compare (m1 * 10 ^ (e1 - E)) (m2 * 10 ^ (e2 - E))).
Proof.
  intros H1 H2. cbn [Num.cmp]. f_equal.
  set (e := Z.min e1 e2).
  assert (He : E <= e) by (unfold e; lia).
  assert (He1 : e <= e1) by (unfold e; lia).
  assert (He2 : e <= e2) by (unfold e; lia).
  replace (e1 - E) with ((e1 - e) + (e - E)) by lia.
  replace (e2 - E) with ((e2 - e) + (e - E)) by lia.
  rewrite !pow10_split by lia. rewrite !Z.mul_assoc.
  apply Zmult_compare_compat_r. apply Z.lt_gt. apply pow10_pos. lia.
Qed.

Lemma le_trans (a b c : num) :
  Num.le a b = true -> Num.le b c = true -> Num.le a c = true.
Proof.
  unfold Num.le.
  destruct a as [| | |m1 e1], b as [| | |m2 e2], c as [| | |m3 e3];
    try (solve [cbn [Num.cmp]; first [congruence | reflexivity]]).
  set (E := Z.min e1 (Z.min e2 e3)).
  rewrite (cmp_scale m1 e1 m2 e2 E), (cmp_scale m2 e2 m3 e3 E),
    (cmp_scale m1 e1 m3 e3 E) by (unfold E; lia).
  set (x := m1 * 10 ^ (e1 - E)). set (y := m2 * 10 ^ (e2 - E)).
  set (z := m3 * 10 ^ (e3 - E)).
  destruct (x ?= y) eqn:Exy; try congruence;
    destruct (y ?= z) eqn:Eyz; try congruence; intros _ _;
    destruct (x ?= z) eqn:Exz; try reflexivity;
    rewrite ?Z.compare_eq_iff, ?Z.compare_lt_iff, ?Z.compare_gt_iff in *; lia.
Qed.

Lemma le_total (a b : num) :
  a <> NaN -> b <> NaN -> Num.le a b = true \/ Num.le b a = true.
Proof.
  unfold Num.le.
  destruct a as [| | |m1 e1], b as [| | |m2 e2]; cbn [Num.cmp]; intros Ha Hb;
    try congruence; auto.
  rewrite (Z.min_comm e2 e1).
  rewrite (Z.compare_antisym (m1 * 10 ^ (e1 - Z.min e1 e2))).
  destruct (m1 * 10 ^ (e1 - Z.min e1 e2) ?= m2 * 10 ^ (e2 - Z.min e1 e2)); auto.
Qed.

Lemma le_refl (a : num) : a <> NaN -> Num.le a a = true.
Proof. intros H. unfold Num.le. now rewrite cmp_refl. Qed.

Lemma gt_not_le (a b : num) :
  a <> NaN -> b <> NaN -> Num.gt a b = negb (Num.le a b).
Proof.
  unfold Num.gt, Num.le.
  destruct a, b; cbn [Num.cmp]; intros; try congruence; try reflexivity.
  now destruct (_ ?= _).
Qed.

Lemma max2_not_nan (a b : num) : a <> NaN -> b <> NaN -> Num.max2 a b <> NaN.
Proof.
  unfold Num.max2. destruct a, b; cbn [Num.cmp]; intros; try congruence.
  now destruct (_ ?= _).
Qed.

Lemma max2_cases (a b : num) :
  a <> NaN -> b <> NaN ->
  (Num.max2 a b = a /\ Num.le b a = true) \/ (Num.max2 a b = b /\ Num.le a b = true).
Proof.
  intros Ha Hb. unfold Num.max2, Num.le.
  destruct (Num.cmp a b) as [[]|] eqn:E.
  - left. split; [reflexivity|]. now rewrite (cmp_eq_sym _ _ E).
  - right. now split.
  - left. split; [reflexivity|].
    destruct a, b; cbn [Num.cmp] in *; try congruence; try reflexivity.
    rewrite (Z.min_comm e0 e). injection E as E.
    rewrite Z.compare_antisym, E. reflexivity.
  - destruct a, b; cbn [Num.cmp] in E; congruence.
Qed.

Lemma fold_max2_spec (xs : list num) :
  forall acc : num,
    acc <> NaN -> (forall x, In x xs -> x <> NaN) ->
    let r := fold_left Num.max2 xs acc in
    r <> NaN /\ (r = acc \/ In r xs) /\ Num.le acc r = true
    /\ (forall x, In x xs -> Num.le x r = true).
Proof.
  induction xs as [|x xs IH]; intros acc Hacc Hxs; cbn [fold_left].
  - repeat split; auto using le_refl; intros x [].
  - assert (Hx : x <> NaN) by (apply Hxs; now left).
    assert (Hm : Num.max2 acc x <> NaN) by now apply max2_not_nan.
    destruct (IH (Num.max2 acc x) Hm (fun y Hy => Hxs y (or_intror Hy)))
      as (Hr & Hin & Hle & Hall).
    destruct (max2_cases acc x Hacc Hx) as [[Em Hl] | [Em Hl]]; rewrite Em in *.
    + repeat split; auto.
      * destruct Hin; [now left | right; now right].
      * intros y [<- | Hy]; [eapply le_trans; eauto | now apply Hall].
    + repeat split; auto.
      * destruct Hin as [-> | Hin]; right; [now left | now right].
      * eapply le_trans; eauto.
      * intros y [<- | Hy]; [exact Hle | now apply Hall].
Qed.

(** [Math.max] over a non-empty list without NaN returns one of its
    elements, and no element is larger. *)
Lemma Math_max_is_maximum (x : num) (xs : list num) :
  (forall y, In y (x :: xs) -> y <> NaN) ->
  In (Math_max (x :: xs)) (x :: xs)
  /\ (forall y, In y (x :: xs) -> Num.le y (Math_max (x :: xs)) = true).
Proof.
  intros H. unfold Math_max. cbn [fold_left].
  assert (Hx : x <> NaN) by (apply H; now left).
  assert (E : Num.max2 NInf x = x).
  { unfold Num.max2. destruct x; cbn [Num.cmp]; congruence. }
  rewrite E.
  destruct (fold_max2_spec xs x Hx (fun y Hy => H y (or_intror Hy)))
    as (_ & Hin & Hle & Hall).
  split.
  - destruct Hin as [-> | Hin]; [now left | now right].
  - intros y [<- | Hy]; [exact Hle | now apply Hall].
Qed.

Lemma Math_max_nil : Math_max [] = NInf.
Proof. reflexivity. Qed.

(** ** Reading and writing properties *)

Lemma has_get_update (o : obj) (k : string) (v : prim) :
  has o k = true -> get (update o k v) k = v.
Proof.
  induction o as [|[k' v'] o IH]; cbn [has update get]; [discriminate|].
  destruct (String.eqb k k') eqn:E; cbn [orb get]; rewrite ?E; auto.
Qed.

Lemma get_update_other (o : obj) (k k' : string) (v : prim) :
  k' <> k -> get (update o k v) k' = get o k'.
Proof.
  intros Hne. induction o as [|[k0 v0] o IH]; cbn [update get]; [reflexivity|].
  destruct (String.eqb k k0) eqn:E; cbn [get].
  - apply String.eqb_eq in E. subst k0.
    apply String.eqb_neq in Hne. now rewrite Hne.
  - now rewrite IH.
Qed.

Lemma has_update (o : obj) (k k' : string) (v : prim) :
  has (update o k v) k' = has o k'.
Proof.
  induction o as [|[k0 v0] o IH]; cbn [update has]; [reflexivity|].
  destruct (String.eqb k k0); cbn [has]; now rewrite ?IH.
Qed.

Lemma get_insert_index (o : obj) (i : Z) (k k' : string) (v : prim) :
  has o k = false ->
  get (insert_index o i k v) k' = if String.eqb k' k then v else get o k'.
Proof.
  induction o as [|[k0 v0] o IH]; cbn [has insert_index get]; intros H.
  - reflexivity.
  - apply orb_false_iff in H as [H0 H].
    destruct (array_index k0) as [j|]; [destruct (j <? i)|]; cbn [get]; try reflexivity.
    rewrite (IH H).
    destruct (String.eqb k' k) eqn:E; [|reflexivity].
    apply String.eqb_eq in E. subst k'. now rewrite H0.
Qed.

Lemma has_insert_index (o : obj) (i : Z) (k k' : string) (v : prim) :
  has (insert_index o i k v) k' = String.eqb k' k || has o k'.
Proof.
  induction o as [|[k0 v0] o IH]; cbn [insert_index has].
  - reflexivity.
  - destruct (array_index k0) as [j|]; [destruct (j <? i)|]; cbn [has]; try reflexivity.
    rewrite IH. now rewrite !orb_assoc, (orb_comm (String.eqb k' k0)).
Qed.

Lemma get_app_new (o : obj) (k k' : string) (v : prim) :
  has o k = false ->
  get (o ++ [(k, v)])%list k' = if String.eqb k' k then v else get o k'.
Proof.
  induction o as [|[k0 v0] o IH]; cbn [has app get]; intros H.
  - reflexivity.
  - apply orb_false_iff in H as [H0 H]. rewrite (IH H).
    destruct (String.eqb k' k) eqn:E; [|reflexivity].
    apply String.eqb_eq in E. subst k'. now rewrite H0.
Qed.

Lemma has_app_new (o : obj) (k k' : string) (v : prim) :
  has (o ++ [(k, v)])%list k' = String.eqb k' k || has o k'.
Proof.
  induction o as [|[k0 v0] o IH]; cbn [app has].
  - now rewrite orb_false_r.
  - rewrite IH. now rewrite !orb_assoc, (orb_comm (String.eqb k' k0)).
Qed.

Lemma get_set (o : obj) (k k' : string) (v : prim) :
  get (set o k v) k' = if String.eqb k' k then v else get o k'.
Proof.
  unfold set. destruct (has o k) eqn:H.
  - destruct (String.eqb k' k) eqn:E.
    + apply String.eqb_eq in E. subst k'. now apply has_get_update.
    + apply String.eqb_neq in E. now apply get_update_other.
  - destruct (array_index k); [now apply get_insert_index | now apply get_app_new].
Qed.

Lemma get_set_same (o : obj) (k : string) (v : prim) : get (set o k v) k = v.
Proof. rewrite get_set. now rewrite String.eqb_refl. Qed.

Lemma has_set (o : obj) (k k' : string) (v : prim) :
  has (set o k v) k' = String.eqb k' k || has o k'.
Proof.
  unfold set. destruct (has o k) eqn:H.
  - rewrite has_update. destruct (String.eqb k' k) eqn:E; [|reflexivity].
    apply String.eqb_eq in E. subst k'. now rewrite H.
  - destruct (array_index k); [apply has_insert_index | apply has_app_new].
Qed.

Lemma update_same (o : obj) (k : string) (v : prim) :
  get o k = v -> update o k v = o.
Proof.
  induction o as [|[k0 v0] o IH]; cbn [get update]; intros H; [reflexivity|].
  destruct (String.eqb k k0); [now subst | now rewrite IH].
Qed.

(** Writing to a property the value it already has leaves the object as it
    is. *)
Lemma set_same (o : obj) (k : string) (v : prim) :
  has o k = true -> get o k = v -> set o k v = o.
Proof.
  intros H E. unfold set. rewrite H. now apply update_same.
Qed.

(** ** The count intent *)

(** Whatever the runtime, the count over no row shows the maximum of
    nothing. *)
Lemma count_text_of_nothing {rt : Runtime} :
  Main.count_text [] =
  "Total Sales Orders: 0" ++ nl ++ "Total Amount: " ++ formatPeso (PNum zero) ++ nl ++
  "Highest GP Rate: -Infinity%".
Proof. reflexivity. Qed.

(** Over rows whose rates are numbers other than NaN, the rate shown is the
    rate of one of the rows and no row has a larger one. *)
Lemma count_shows_the_maximum (o : order) (l : list order) :
  let rates := map (fun o => toNumber (js_or (get o "gpRate") (PNum zero))) (o :: l) in
  (forall r, In r rates -> r <> NaN) ->
  In (Math_max rates) rates /\ (forall r, In r rates -> Num.le r (Math_max rates) = true).
Proof. cbn zeta. cbn [map]. apply Math_max_is_maximum. Qed.

(** The helper getSalesOrdersByDateAndStatus answers a search without match
    by the literal text of negative infinity. *)
Lemma helper_summary_of_nothing {rt : Runtime} (targetDate targetStatus : prim)
    (s : Main.summary) :
  Main.getSalesOrdersByDateAndStatus [] targetDate targetStatus = Ok s ->
  Main.total_sales_orders s = zero /\ Main.total_amount s = "₱0.00"
  /\ Main.highest_gp_rate s = "-Infinity%" /\ Main.orders s = [].
Proof.
  unfold Main.getSalesOrdersByDateAndStatus.
  destruct (iso_day (new_Date targetDate)); cbn [bind]; [|discriminate].
  destruct (m_trim targetStatus); cbn [bind filterM]; [|discriminate].
  intros H. injection H as <-. repeat split.
Qed.


(** ** Reading digits *)

Lemma digit_val_nonneg (c : ascii) : is_digit c = true -> 0 <= digit_val c <= 9.
Proof.
  unfold is_digit, digit_val. intros H. apply andb_true_iff in H as [H1 H2].
  apply Nat.leb_le in H1, H2. lia.
Qed.

Lemma span_digits_all_digits (s : string) :
  all_digits (fst (span_digits s)) = true.
Proof.
  induction s as [|c t IH]; cbn [span_digits]; [reflexivity|].
  destruct (is_digit c) eqn:E; [|reflexivity].
  destruct (span_digits t) as [ds r]. cbn [fst all_digits] in *.
  now rewrite E, IH.
Qed.

Lemma all_digits_app (a b : string) :
  all_digits (a ++ b) = all_digits a && all_digits b.
Proof.
  induction a as [|c a IH]; cbn [append all_digits]; [reflexivity|].
  now rewrite IH, andb_assoc.
Qed.

Lemma digits_value_nonneg (ds : string) :
  forall acc, all_digits ds = true -> 0 <= acc -> 0 <= digits_value acc ds.
Proof.
  induction ds as [|c t IH]; intros acc H Hacc; cbn [digits_value]; [exact Hacc|].
  cbn [all_digits] in H. apply andb_true_iff in H as [Hc Ht].
  apply IH; [exact Ht|]. pose proof (digit_val_nonneg c Hc). lia.
Qed.

Lemma strip10_nonneg (fuel : nat) :
  forall m e, 0 <= m -> 0 <= fst (strip10 fuel m e).
Proof.
  induction fuel as [|f IH]; intros m e H; cbn [strip10]; [exact H|].
  destruct (m mod 10 =? 0); [|exact H].
  apply IH. apply Z.div_pos; lia.
Qed.

Lemma mkFin_not_negative (m e : Z) : 0 <= m -> not_negative (mkFin m e).
Proof.
  intros H. unfold mkFin. destruct (m =? 0); [cbn; lia|].
  pose proof (strip10_nonneg (Z.to_nat (Z.log2 (Z.abs m))) m e H) as Hs.
  destruct (strip10 _ m e) as [m' e']. exact Hs.
Qed.

Lemma read_decimal_nonneg (s : string) (m e : Z) (r : string) :
  read_decimal s = Some (m, e, r) -> 0 <= m.
Proof.
  unfold read_decimal.
  pose proof (span_digits_all_digits s) as Hip.
  destruct (span_digits s) as [ip r1]. cbn [fst] in Hip.
  assert (Hv0 : 0 <= digits_value 0 ip) by (apply digits_value_nonneg; [exact Hip | lia]).
  assert (Hplain : forall m e r,
            match ip with
            | EmptyString => None
            | String _ _ =>
                let (ex, r3) := read_exponent r1 in Some (digits_value 0 ip, ex, r3)
            end = Some (m, e, r) -> 0 <= m).
  { intros m0 e0 r0. destruct ip; [discriminate|].
    destruct (read_exponent r1). intros H. injection H as <- _ _. exact Hv0. }
  destruct r1 as [|c t]; [apply Hplain|].
  destruct (Ascii.eqb c ".") eqn:Ec.
  - apply Ascii.eqb_eq in Ec. subst c.
    pose proof (span_digits_all_digits t) as Hfp.
    destruct (span_digits t) as [fp r2]. cbn [fst] in Hfp.
    assert (Hv : 0 <= digits_value 0 (ip ++ fp)).
    { apply digits_value_nonneg; [|lia]. now rewrite all_digits_app, Hip, Hfp. }
    destruct ip, fp; try discriminate;
      destruct (read_exponent r2); intros H; injection H as <- _ _; exact Hv.
  - intros H. apply (Hplain m e r).
    destruct c as [[] [] [] [] [] [] [] []]; try exact H; discriminate Ec.
Qed.

(** [parseFloat] gives a negative number only for a text that starts, after
    its leading white space, with a minus sign. *)
Lemma parseFloat_not_negative (s : string) :
  starts_with_minus s = false -> not_negative (parseFloat s).
Proof.
  unfold starts_with_minus, parseFloat, read_literal.
  destruct (Str.trimStart s) as [|c t] eqn:Et; [intros _; exact I|].
  assert (Hsign : forall u, not_negative
            match (if String.prefix "Infinity" u
                   then Some (PInf, Str.drop 8 u)
                   else match read_decimal u with
                        | Some (m, e, r) => Some (mkFin m e, r)
                        | None => None
                        end) with
            | Some (n, _) => n
            | None => NaN
            end).
  { intros u. destruct (String.prefix "Infinity" u); [exact I|].
    destruct (read_decimal u) as [[[m e] r]|] eqn:Er; [|exact I].
    apply mkFin_not_negative. eapply read_decimal_nonneg; eauto. }
  destruct (Ascii.eqb c "-") eqn:Em.
  - apply Ascii.eqb_eq in Em. subst c. discriminate.
  - intros _.
    destruct (Ascii.eqb c "+") eqn:Ep.
    + apply Ascii.eqb_eq in Ep. subst c. cbn [read_sign]. apply Hsign.
    + assert (Hrs : read_sign (String c t) = (false, String c t)).
      { destruct c as [[] [] [] [] [] [] [] []]; try reflexivity;
          discriminate Em || discriminate Ep. }
      rewrite Hrs. apply Hsign.
Qed.

(** ** Normalization of the numeric fields (summarizeERPData) *)

Lemma Main_gpRate (so : order) :
  get (Main.summarizeOne so) "gpRate" = PNum (parseFloat (gp_text so)).
Proof. unfold Main.summarizeOne. now rewrite !get_set. Qed.

Lemma Main_amount (so : order) :
  get (Main.summarizeOne so) "amount"
  = PNum (toNumber (js_or (get so "TotalAmount_TransH") (PNum zero))).
Proof. unfold Main.summarizeOne. now rewrite !get_set. Qed.

(** C5 (as amended). After normalization gpRate and amount are always
    numbers, never strings: gpRate is parseFloat of the text of the raw value
    with its first "%" and its first "," removed, amount is Number of the raw
    value.  A raw value that is absent or otherwise falsy yields 0, and the
    raw gpRate "55.5%" yields 55.5.  The number is NaN when the text is not
    numeric; gpRate is negative only when the text starts with a minus
    sign. *)
Theorem C5_numeric_fields_are_numbers (so : order) :
  let o := Main.summarizeOne so in
  get o "gpRate" = PNum (parseFloat (gp_text so))
  /\ get o "amount" = PNum (toNumber (js_or (get so "TotalAmount_TransH") (PNum zero)))
  /\ (truthy (get so "gpRate") = false -> get o "gpRate" = PNum zero)
  /\ (truthy (get so "TotalAmount_TransH") = false -> get o "amount" = PNum zero)
  /\ (get so "gpRate" = PStr "55.5%" -> get o "gpRate" = PNum (Fin 555 (-1)))
  /\ (starts_with_minus (gp_text so) = false ->
      exists n, get o "gpRate" = PNum n /\ not_negative n)
  /\ get (Pg.summarizeOne so) "gp_rate"
     = PNum (parseFloat (strip_gp (toStringP (js_or (get so "gpRate") (PNum zero)))))
  /\ get (Pg.summarizeOne so) "amount"
     = PNum (toNumber (js_or (get so "TotalAmount_TransH") (PNum zero))).
Proof.
  cbn zeta. rewrite Main_gpRate, Main_amount.
  split; [reflexivity|]. split; [reflexivity|].
  split.
  { intros H. unfold gp_text, js_or. rewrite H. reflexivity. }
  split.
  { intros H. unfold js_or. rewrite H. reflexivity. }
  split.
  { intros H. unfold gp_text. rewrite H. reflexivity. }
  split.
  { intros H. eexists. split; [reflexivity|]. now apply parseFloat_not_negative. }
  split; reflexivity.
Qed.

(** C5, counterexample: a gross-profit rate that is not numeric normalizes
    to NaN, not to 0, and a negative amount stays negative. *)
Lemma C5_counterexample_not_a_number :
  get (Main.summarizeOne na_row) "gpRate" = PNum NaN
  /\ get (Main.summarizeOne na_row) "amount" = PNum (Fin (-125) (-1))
  /\ get (Pg.summarizeOne na_row) "gp_rate" = PNum NaN
  /\ get (Pg.summarizeOne na_row) "amount" = PNum (Fin (-125) (-1))
  /\ Num.is_finite NaN = false
  /\ Num.lt (Fin (-125) (-1)) zero = true.
Proof. repeat split; reflexivity. Qed.

(** ** Filters that may throw *)

Lemma filterM_ok {A} (p : A -> res bool) (l : list A) (r : list A) :
  filterM p l = Ok r ->
  r = filter (fun x => match p x with Ok true => true | _ => false end) l
  /\ (forall x, In x l -> exists b, p x = Ok b).
Proof.
  revert r. induction l as [|x l IH]; intros r H; cbn [filterM] in H.
  - injection H as <-. split; [reflexivity | intros x []].
  - destruct (p x) as [b|e] eqn:Ex; cbn [bind] in H; [|discriminate].
    destruct (filterM p l) as [r'|e] eqn:El; cbn [bind] in H; [|discriminate].
    injection H as <-. destruct (IH r' eq_refl) as [-> Hall].
    split.
    + cbn [filter]. rewrite Ex. now destruct b.
    + intros y [<- | Hy]; [now exists b | now apply Hall].
Qed.

Lemma filterM_total {A} (p : A -> res bool) (l : list A) :
  (forall x, In x l -> exists b, p x = Ok b) ->
  exists r, filterM p l = Ok r.
Proof.
  induction l as [|x l IH]; intros H; cbn [filterM]; [now eexists|].
  destruct (H x (or_introl eq_refl)) as [b ->].
  destruct (IH (fun y Hy => H y (or_intror Hy))) as [r ->].
  cbn [bind]. now eexists.
Qed.

Lemma filterM_throws {A} (p : A -> res bool) (l : list A) (e : exn) :
  (forall x, In x l -> p x = Throw e \/ exists b, p x = Ok b) ->
  (exists x, In x l /\ p x = Throw e) ->
  filterM p l = Throw e.
Proof.
  induction l as [|x l IH]; intros Hall [y [Hy Ey]]; [destruct Hy|].
  cbn [filterM].
  destruct (Hall x (or_introl eq_refl)) as [-> | [b Eb]]; [reflexivity|].
  rewrite Eb. cbn [bind].
  rewrite IH; [reflexivity | |].
  - intros z Hz. apply Hall. now right.
  - destruct Hy as [<- | Hy]; [congruence | now exists y].
Qed.

Lemma filter_filter {A} (p q : A -> bool) (l : list A) :
  filter q (filter p l) = filter (fun x => p x && q x) l.
Proof.
  induction l as [|x l IH]; cbn [filter]; [reflexivity|].
  destruct (p x); cbn [filter andb]; [destruct (q x)|]; now rewrite IH.
Qed.

(** One filter of the engine: skipped when its guard is off, otherwise a
    set-up that may throw followed by a test of each row. *)
Lemma guarded_stage {S} (guard : bool) (setup : res S)
    (test : S -> order -> res bool) (l r : list order) :
  (if guard then s <- setup ;; filterM (test s) l else Ok l) = Ok r ->
  r = filter (satisfied (fun o => if guard then s <- setup ;; test s o else Ok true)) l.
Proof.
  destruct guard.
  - destruct setup as [s|e]; cbn [bind]; [|discriminate].
    intros H. apply filterM_ok in H as [-> _]. reflexivity.
  - intros H. injection H as <-. unfold satisfied.
    induction l as [|x l IH]; cbn [filter]; congruence.
Qed.

Lemma plain_stage (guard : bool) (test : order -> bool) (l : list order) :
  (if guard then filter test l else l)
  = filter (satisfied (fun o => if guard then Ok (test o) else Ok true)) l.
Proof.
  destruct guard; unfold satisfied.
  - apply filter_ext. intros o. now destruct (test o).
  - induction l as [|x l IH]; cbn [filter]; congruence.
Qed.

Lemma satisfies_all_perm (cs cs' : list (order -> res bool)) (o : order) :
  Permutation cs cs' -> satisfies_all cs o = satisfies_all cs' o.
Proof.
  unfold satisfies_all.
  induction 1 as [|c l l' _ IH|c c' l|l l' l'' _ IH1 _ IH2]; cbn [forallb].
  - reflexivity.
  - now rewrite IH.
  - now rewrite !andb_assoc, (andb_comm (satisfied c' o)).
  - congruence.
Qed.

(** ** The filtered set of chat-main (filterOrders, formatResponse) *)

Section FilteredSet.
Context {rt : Runtime}.

Lemma Main_filterOrders_ok (orders : list order) (parsed : descriptor) (f : list order) :
  Main.filterOrders orders parsed = Ok f ->
  f = filter (satisfied (MainSpec.c_year parsed))
        (filter (satisfied (MainSpec.c_date_is parsed))
           (filter (satisfied (MainSpec.c_gpThreshold parsed))
              (filter (satisfied (MainSpec.c_customer parsed)) orders))).
Proof.
  unfold Main.filterOrders.
  destruct (Main.by_customer parsed orders) as [f1|e] eqn:E1; cbn [bind]; [|discriminate].
  apply (guarded_stage (truthyV (customer parsed)) (mV_toLowerCase (customer parsed))
           Main.customer_match) in E1.
  intros E4.
  apply (guarded_stage (truthyV (year parsed)) (Ok tt)
           (fun _ => Main.year_prefix parsed)) in E4.
  unfold Main.by_date_is, Main.by_gpThreshold in E4.
  rewrite !plain_stage in E4. subst f1. exact E4.
Qed.

Lemma Main_refine_ok (f : list order) (parsed : descriptor) (question : string)
    (s : list order) :
  Main.refine f parsed question = Ok s ->
  s = filter (satisfied (MainSpec.c_status parsed))
        (filter (satisfied (MainSpec.c_september question))
           (filter (satisfied (MainSpec.c_same_day parsed))
              (filter (satisfied (MainSpec.c_year parsed))
                 (filter (satisfied (MainSpec.c_salesRep parsed)) f)))).
Proof.
  unfold Main.refine.
  destruct (Main.by_salesRep parsed f) as [g1|e] eqn:E1; cbn [bind]; [|discriminate].
  apply (guarded_stage (truthyV (salesRep parsed)) (Ok tt)
           (fun _ => Main.salesRep_match parsed)) in E1.
  destruct (Main.by_year parsed g1) as [g2|e] eqn:E2; cbn [bind]; [|discriminate].
  apply (guarded_stage (truthyV (year parsed)) (Ok tt)
           (fun _ => Main.year_prefix parsed)) in E2.
  destruct (Main.by_same_day parsed g2) as [g3|e] eqn:E3; cbn [bind]; [|discriminate].
  apply (guarded_stage (truthyV (date parsed)) (iso_day (new_DateV (date parsed)))
           Main.same_day) in E3.
  intros E5.
  apply (guarded_stage (truthyV (status parsed)) (Ok tt)
           (fun _ => Main.status_match parsed)) in E5.
  unfold Main.by_september in E5. rewrite plain_stage in E5.
  subst g1 g2 g3. exact E5.
Qed.

Lemma answered_over_ok (orders : list order) (parsed : descriptor)
    (question : string) (s : list order) :
  MainSpec.answered_over orders parsed question = Ok s ->
  s = filter (satisfies_all (MainSpec.constraints parsed question)) orders.
Proof.
  unfold MainSpec.answered_over.
  destruct (Main.filterOrders orders parsed) as [f|e] eqn:Ef; cbn [bind]; [|discriminate].
  apply Main_filterOrders_ok in Ef.
  intros Hs.
  assert (Es : s = filter (satisfied (MainSpec.c_status parsed))
        (filter (satisfied (MainSpec.c_september question))
           (filter (satisfied (MainSpec.c_same_day parsed))
              (filter (satisfied (MainSpec.c_year parsed))
                 (filter (satisfied (MainSpec.c_salesRep parsed)) f))))).
  { destruct f as [|o f']; [now injection Hs as <- | now apply Main_refine_ok]. }
  rewrite Es, Ef. rewrite !filter_filter. apply filter_ext. intros o.
  unfold satisfies_all, MainSpec.constraints. cbn [forallb].
  repeat match goal with
         | |- context [satisfied ?c o] => destruct (satisfied c o)
         end; reflexivity.
Qed.

End FilteredSet.




(** ** Where filterOrders throws *)

Lemma as_string_text (v : prim) :
  is_text v = true -> exists s, as_string v = Ok s.
Proof. destruct v; try discriminate. intros _. now eexists. Qed.

Lemma as_string_not_text (v : prim) :
  is_text v = false -> as_string v = Throw TypeError.
Proof. destruct v; try reflexivity. discriminate. Qed.

Lemma lower_of_text_or_falsy (v : prim) :
  text_or_falsy v = true -> exists s, m_toLowerCase (js_or v (PStr "")) = Ok s.
Proof.
  unfold text_or_falsy, js_or, m_toLowerCase. intros H.
  destruct (truthy v) eqn:T.
  - rewrite orb_false_r in H. destruct (as_string_text v H) as [s ->].
    cbn [bind]. now eexists.
  - cbn. now eexists.
Qed.

Lemma year_prefix_throws_or_not (parsed : descriptor) (key : string) (o : order) :
  (s <- as_string (get o key) ;; Ok (Str.startsWith s (toStringV (year parsed))))
    = Throw TypeError
  \/ exists b,
       (s <- as_string (get o key) ;; Ok (Str.startsWith s (toStringV (year parsed))))
       = Ok b.
Proof.
  destruct (get o key); cbn; auto. right. now eexists.
Qed.

Lemma Main_by_year_throws (parsed : descriptor) (l : list order) :
  truthyV (year parsed) = true ->
  (exists o, In o l /\ is_text (get o "DateCreated_TransH") = false) ->
  Main.by_year parsed l = Throw TypeError.
Proof.
  intros Hy [o [Ho Ht]]. unfold Main.by_year. rewrite Hy.
  apply filterM_throws.
  - intros x _. apply year_prefix_throws_or_not.
  - exists o. split; [exact Ho|]. unfold Main.year_prefix.
    now rewrite (as_string_not_text _ Ht).
Qed.

Lemma Main_by_year_total (parsed : descriptor) (l : list order) :
  (forall o, In o l -> is_text (get o "DateCreated_TransH") = true) ->
  exists r, Main.by_year parsed l = Ok r.
Proof.
  intros H. unfold Main.by_year. destruct (truthyV (year parsed)); [|now eexists].
  apply filterM_total. intros o Ho. unfold Main.year_prefix.
  destruct (as_string_text _ (H o Ho)) as [s ->]. cbn [bind]. now eexists.
Qed.

Lemma Main_customer_match_total (kw : string) (o : order) :
  text_or_falsy (get o "Name_Cust") = true ->
  text_or_falsy (get o "ContractDescription_TransH") = true ->
  text_or_falsy (get o "Memo_TransH") = true ->
  exists b, Main.customer_match kw o = Ok b.
Proof.
  intros H1 H2 H3. unfold Main.customer_match.
  destruct (lower_of_text_or_falsy _ H1) as [a ->]. cbn [bind].
  destruct (Str.includes a kw); [now eexists|].
  destruct (lower_of_text_or_falsy _ H2) as [b ->]. cbn [bind].
  destruct (Str.includes b kw); [now eexists|].
  destruct (lower_of_text_or_falsy _ H3) as [c ->]. cbn [bind]. now eexists.
Qed.

Lemma Main_by_customer_total (parsed : descriptor) (l : list order) :
  textV_or_falsy (customer parsed) = true ->
  (forall o, In o l ->
     text_or_falsy (get o "Name_Cust") = true
     /\ text_or_falsy (get o "ContractDescription_TransH") = true
     /\ text_or_falsy (get o "Memo_TransH") = true) ->
  exists r, Main.by_customer parsed l = Ok r /\ (forall o, In o r -> In o l).
Proof.
  intros Hc H. unfold Main.by_customer.
  destruct (truthyV (customer parsed)) eqn:T; [|exists l; now split].
  unfold textV_or_falsy in Hc. rewrite T, orb_false_r in Hc.
  destruct (customer parsed) as [[| | | |s]| |]; try discriminate.
  cbn [mV_toLowerCase as_stringV bind].
  destruct (filterM_total (Main.customer_match (Str.toLowerCase s)) l) as [r Er].
  { intros o Ho. destruct (H o Ho) as (H1 & H2 & H3).
    now apply Main_customer_match_total. }
  exists r. split; [exact Er|].
  apply filterM_ok in Er as [-> _]. intros o Ho. now apply filter_In in Ho as [Ho _].
Qed.

Lemma Pg_customer_match_throws_or_not (parsed : descriptor) (o : order) :
  is_textV (customer parsed) = true ->
  Pg.customer_match parsed o = Throw TypeError
  \/ exists b, Pg.customer_match parsed o = Ok b.
Proof.
  intros H. unfold Pg.customer_match.
  destruct (customer parsed) as [[| | | |s]| |]; try discriminate.
  destruct (get o "customer"); cbn; auto. right. now eexists.
Qed.

(** C10 (as amended). filterOrders is partial, and where it throws depends
    on the rows that reach each filter.  In chat-main the date filter is a
    strict comparison and never throws; the year filter throws a TypeError as
    soon as a row that passed the customer, gpThreshold and date filters has
    a DateCreated_TransH that is not a string, and filterOrders returns
    normally when every row carries that field as a string, its three text
    fields as strings or falsy values, and the descriptor's customer is a
    string or falsy.  In part_000 the same holds of the year filter over the
    rows that reach it.  In part_001 the customer filter, which runs first
    and has no guard, throws a TypeError as soon as the descriptor supplies
    a customer string and some row has a customer that is not a string. *)
Theorem C10_where_filterOrders_throws {rt : Runtime}
    (orders : list order) (parsed : descriptor) :
  (forall f1,
      Main.by_customer parsed orders = Ok f1 ->
      truthyV (year parsed) = true ->
      (exists o, In o (Main.by_date_is parsed (Main.by_gpThreshold parsed f1))
                 /\ is_text (get o "DateCreated_TransH") = false) ->
      Main.filterOrders orders parsed = Throw TypeError)
  /\ (textV_or_falsy (customer parsed) = true ->
      (forall o, In o orders ->
         is_text (get o "DateCreated_TransH") = true
         /\ text_or_falsy (get o "Name_Cust") = true
         /\ text_or_falsy (get o "ContractDescription_TransH") = true
         /\ text_or_falsy (get o "Memo_TransH") = true) ->
      exists r, Main.filterOrders orders parsed = Ok r)
  /\ (forall f3,
      truthyV (year parsed) = true ->
      (exists o, In o f3 /\ is_text (get o "date") = false) ->
      filterM (Disk.year_prefix parsed) f3 = Throw TypeError)
  /\ (truthyV (customer parsed) = true ->
      is_textV (customer parsed) = true ->
      (exists o, In o orders /\ is_text (get o "customer") = false) ->
      Pg.filterOrders orders parsed = Throw TypeError).
Proof.
  split; [|split; [|split]].
  - intros f1 E1 Hy Hex. unfold Main.filterOrders. rewrite E1. cbn [bind].
    now apply Main_by_year_throws.
  - intros Hc H. unfold Main.filterOrders.
    destruct (Main_by_customer_total parsed orders Hc) as (f1 & -> & Hsub).
    { intros o Ho. now destruct (H o Ho) as (_ & ? & ? & ?). }
    cbn [bind]. apply Main_by_year_total. intros o Ho.
    unfold Main.by_date_is, Main.by_gpThreshold in Ho.
    assert (Hin : In o f1).
    { destruct (truthyV (date parsed)); [apply filter_In in Ho as [Ho _]|];
        destruct (truthyV (gpThreshold parsed)); try exact Ho;
        now apply filter_In in Ho as [Ho _]. }
    now destruct (H o (Hsub o Hin)) as (? & _).
  - intros f3 Hy [o [Ho Ht]]. apply filterM_throws.
    + intros x _. apply (year_prefix_throws_or_not parsed "date").
    + exists o. split; [exact Ho|]. unfold Disk.year_prefix.
      now rewrite (as_string_not_text _ Ht).
  - intros T Hc [o [Ho Ht]]. unfold Pg.filterOrders. rewrite T.
    rewrite (filterM_throws (Pg.customer_match parsed) orders TypeError).
    + reflexivity.
    + intros x _. now apply Pg_customer_match_throws_or_not.
    + exists o. split; [exact Ho|]. unfold Pg.customer_match, m_toLowerCase.
      now rewrite (as_string_not_text _ Ht).
Qed.

(** C10, counterexample: a cached row without creation date and a query
    that supplies a year, a customer keyword the row does not match: the
    customer filter drops the row before the year filter sees it and nothing
    is thrown (with the year alone, a TypeError is).  In the first variant a
    date constraint on that row does not throw either; nor do, in the second
    variant, a date or a year constraint, the absent date being stored as
    null, which Date reads as the epoch. *)
Lemma C10_counterexample_undated_row_filtered_out :
  map (fun o => get o "DateCreated_TransH") undated_main = [PUndef]
  /\ Main.filterOrders undated_main zenith_in_2024 = Ok []
  /\ Main.filterOrders undated_main all_of_2024 = Throw TypeError
  /\ Main.filterOrders undated_main on_march_first = Ok []
  /\ map (fun o => get o "date_created") undated_pg = [PNull]
  /\ Pg.filterOrders (rt := Ref.runtime) undated_pg on_march_first = Ok []
  /\ Pg.filterOrders (rt := Ref.runtime) undated_pg all_of_2024 = Ok [].
Proof. repeat split; vm_compute; reflexivity. Qed.

(** ** The sign of a decimal *)

Lemma strip10_sign (fuel : nat) :
  forall m e, (0 <? fst (strip10 fuel m e)) = (0 <? m).
Proof.
  induction fuel as [|f IH]; intros m e; cbn [strip10]; [reflexivity|].
  destruct (m mod 10 =? 0) eqn:E; [|reflexivity].
  rewrite IH. apply Z.eqb_eq in E.
  pose proof (Z.div_mod m 10 ltac:(lia)) as Hm. rewrite E in Hm.
  destruct (0 <? m) eqn:Em; [apply Z.ltb_lt in Em | apply Z.ltb_ge in Em].
  - apply Z.ltb_lt. lia.
  - apply Z.ltb_ge. lia.
Qed.

Lemma gt_Fin_zero (m e : Z) : Num.gt (Fin m e) zero = (0 <? m).
Proof.
  unfold Num.gt, zero. cbn [Num.cmp].
  assert (Hp : 0 < 10 ^ (e - Z.min e 0)) by (apply pow10_pos; lia).
  rewrite Z.mul_0_l.
  destruct (m * 10 ^ (e - Z.min e 0) ?= 0) eqn:E;
    rewrite ?Z.compare_eq_iff, ?Z.compare_lt_iff, ?Z.compare_gt_iff in E;
    symmetry; [apply Z.ltb_ge | apply Z.ltb_ge | apply Z.ltb_lt]; nia.
Qed.

Lemma gt_mkFin_zero (m e : Z) : Num.gt (mkFin m e) zero = (0 <? m).
Proof.
  unfold mkFin. destruct (m =? 0) eqn:E.
  - apply Z.eqb_eq in E. subst m. reflexivity.
  - pose proof (strip10_sign (Z.to_nat (Z.log2 (Z.abs m))) m e) as Hs.
    destruct (strip10 _ m e) as [m' e']. cbn [fst] in Hs.
    now rewrite gt_Fin_zero.
Qed.

(** ** The stable sort *)

Section Sorting.
Context {A : Type} (c : A -> A -> num).

Lemma insert_by_perm (x : A) (l : list A) : Permutation (x :: l) (insert_by c x l).
Proof.
  induction l as [|y t IH]; cbn [insert_by]; [apply Permutation_refl|].
  destruct (Num.gt (c x y) zero); [|apply Permutation_refl].
  eapply Permutation_trans; [apply perm_swap|]. now apply perm_skip.
Qed.

Lemma sort_by_perm (l : list A) : Permutation l (sort_by c l).
Proof.
  induction l as [|x t IH]; cbn [sort_by fold_right]; [apply perm_nil|].
  eapply Permutation_trans; [apply perm_skip, IH | apply insert_by_perm].
Qed.

Variable dom : A -> Prop.
Hypothesis Hc : consistent c dom.

Lemma insert_by_sorted (x : A) (l : list A) :
  dom x -> Forall dom l ->
  StronglySorted (fun a b => placed_after c a b = false) l ->
  StronglySorted (fun a b => placed_after c a b = false) (insert_by c x l).
Proof.
  destruct Hc as [Hasym Htrans].
  intros Hx Hl Hs. induction Hs as [|y t Hs IH Hy]; cbn [insert_by].
  - constructor; constructor.
  - inversion Hl as [|? ? Hdy Hdt]; subst.
    destruct (Num.gt (c x y) zero) eqn:E.
    + constructor; [now apply IH|].
      eapply Permutation_Forall; [apply insert_by_perm|].
      constructor; [|exact Hy]. now apply Hasym.
    + constructor; [now constructor|].
      constructor; [exact E|].
      rewrite Forall_forall in *. intros z Hz.
      apply (Htrans x y z); auto.
Qed.

Lemma sort_by_sorted (l : list A) :
  Forall dom l ->
  StronglySorted (fun a b => placed_after c a b = false) (sort_by c l).
Proof.
  induction l as [|x t IH]; intros Hl; cbn [sort_by fold_right]; [constructor|].
  inversion Hl; subst. apply insert_by_sorted; auto.
  eapply Permutation_Forall; [apply sort_by_perm|]. assumption.
Qed.

Lemma insert_by_tied (x a : A) (s : list A) :
  dom x -> dom a -> Forall dom s ->
  filter (tied c x) (insert_by c a s) = filter (tied c x) (a :: s).
Proof.
  destruct Hc as [Hasym Htrans].
  intros Hx Ha Hs. induction s as [|y t IH]; cbn [insert_by]; [reflexivity|].
  inversion Hs as [|? ? Hy Ht]; subst.
  destruct (Num.gt (c a y) zero) eqn:E; [|reflexivity].
  cbn [filter]. rewrite (IH Ht). cbn [filter].
  destruct (tied c x a) eqn:Ta; [|reflexivity].
  destruct (tied c x y) eqn:Ty; [|reflexivity].
  exfalso. unfold tied in Ta, Ty.
  apply andb_true_iff in Ta as [Ta1 Ta2]. apply andb_true_iff in Ty as [Ty1 Ty2].
  apply negb_true_iff in Ta1, Ta2, Ty1, Ty2.
  assert (placed_after c a y = false) by (apply (Htrans a x y); auto).
  unfold placed_after in *. congruence.
Qed.

(** The sort is stable: rows that tie with a given row keep their order. *)
Lemma sort_by_stable (x : A) (l : list A) :
  dom x -> Forall dom l ->
  filter (tied c x) (sort_by c l) = filter (tied c x) l.
Proof.
  intros Hx. induction l as [|a t IH]; intros Hl; cbn [sort_by fold_right];
    [reflexivity|].
  inversion Hl; subst.
  rewrite insert_by_tied; auto.
  - cbn [filter]. fold (sort_by c t). now rewrite IH.
  - eapply Permutation_Forall; [apply sort_by_perm|]. assumption.
Qed.

End Sorting.

(** ** Monthly totals (formatResponse) *)

Lemma StronglySorted_weaken {A} (R R' : A -> A -> Prop) (l : list A) :
  (forall a b, R a b -> R' a b) -> StronglySorted R l -> StronglySorted R' l.
Proof.
  intros H. induction 1 as [|x t Hs IH Hx]; constructor; [exact IH|].
  eapply Forall_impl; [|exact Hx]. intros b. apply H.
Qed.

Lemma join_nonempty (sep x : string) (t : list string) :
  x <> "" -> Str.join sep (x :: t) <> "".
Proof.
  intros Hx. unfold Str.join. cbn [String.concat].
  destruct t; [exact Hx|]. destruct x; [congruence | discriminate].
Qed.

Section Monthly.
Context {rt : Runtime}.

Lemma month_step_ok (parsed : descriptor) (m m' : obj) (o : order) :
  Main.month_step parsed m o = Ok m' ->
  m' = if qualifies parsed o
       then accumulate m (month_of o) (get o "amount") else m.
Proof.
  unfold Main.month_step, qualifies, month_of.
  destruct (truthy (get o "date")); cbn [negb andb];
    [|intros H; now injection H].
  destruct (status_allowed (get o "Status_TransH")); cbn [negb andb];
    [|intros H; now injection H].
  destruct (m_toLowerCase (get o "salesRep")) as [a|e]; cbn [bind]; [|discriminate].
  destruct (mV_toLowerCase (salesRep parsed)) as [b|e]; cbn [bind]; [|discriminate].
  destruct (String.eqb a b); cbn [negb]; [|intros H; now injection H].
  destruct (get o "date"); cbn [as_string bind]; try discriminate.
  intros H. now injection H.
Qed.

Lemma month_fold_ok (parsed : descriptor) (l : list order) :
  forall m0 m,
    foldM (Main.month_step parsed) l m0 = Ok m ->
    m = fold_left (fun m o => accumulate m (month_of o) (get o "amount"))
                  (filter (qualifies parsed) l) m0.
Proof.
  induction l as [|o l IH]; intros m0 m H; cbn [foldM] in H.
  - now injection H.
  - destruct (Main.month_step parsed m0 o) as [m1|e] eqn:E; cbn [bind] in H;
      [|discriminate].
    apply month_step_ok in E. apply IH in H. cbn [filter].
    destruct (qualifies parsed o); subst m1; exact H.
Qed.

Lemma placed_after_by_month (a b : string * prim) :
  placed_after Main.by_month a b = (0 <? localeCompare (fst a) (fst b)).
Proof. unfold placed_after, Main.by_month, of_Z. apply gt_mkFin_zero. Qed.

Lemma month_lines_nonempty (m : obj) :
  m <> [] -> Str.join nl (Main.month_lines m) <> "".
Proof.
  intros Hm. unfold Main.month_lines.
  pose proof (sort_by_perm Main.by_month (entries m)) as Hp.
  destruct (sort_by Main.by_month (entries m)) as [|e t] eqn:E.
  - apply Permutation_sym, Permutation_nil in Hp. contradiction.
  - cbn [map]. apply join_nonempty. destruct (fst e); discriminate.
Qed.

End Monthly.

(** The reference runtime orders the months consistently. *)
Lemma Ref_by_month_consistent :
  consistent (Main.by_month (rt := Ref.runtime)) (fun _ => True).
Proof.
  assert (Hpa : forall a b : string * prim,
             placed_after (Main.by_month (rt := Ref.runtime)) a b = true <->
             String.compare (fst a) (fst b) = Gt).
  { intros a b. rewrite (placed_after_by_month (rt := Ref.runtime)).
    cbn [localeCompare Ref.runtime]. unfold Ref.code_unit_order.
    destruct (String.compare (fst a) (fst b)); cbn; split; congruence. }
  split.
  - intros x y _ _ H. apply Hpa in H.
    apply not_true_is_false. intros H'. apply Hpa in H'.
    rewrite OrderedTypeEx.String_as_OT.cmp_antisym in H'.
    unfold OrderedTypeEx.String_as_OT.cmp in H'. rewrite H in H'. discriminate.
  - intros x y z _ _ _ H1 H2.
    apply not_true_is_false. intros H3. apply Hpa in H3.
    assert (N1 : String.compare (fst x) (fst y) <> Gt).
    { intros E. apply Hpa in E. congruence. }
    assert (N2 : String.compare (fst y) (fst z) <> Gt).
    { intros E. apply Hpa in E. congruence. }
    destruct (String.compare (fst x) (fst y)) eqn:E1; [| |congruence].
    + apply OrderedTypeEx.String_as_OT.cmp_eq in E1. rewrite E1 in H3. congruence.
    + destruct (String.compare (fst y) (fst z)) eqn:E2; [| |congruence].
      * apply OrderedTypeEx.String_as_OT.cmp_eq in E2. rewrite <- E2 in H3. congruence.
      * apply OrderedTypeEx.String_as_OT.cmp_lt in E1, E2.
        pose proof (OrderedTypeEx.String_as_OT.lt_trans _ _ _ E1 E2) as E3.
        apply OrderedTypeEx.String_as_OT.cmp_lt in E3.
        unfold OrderedTypeEx.String_as_OT.cmp in E3. congruence.
Qed.

Lemma Main_formatResponse_monthly {rt : Runtime}
    (o : order) (rest : list order) (parsed : descriptor) (question : string) :
  intent parsed = vstr "monthlyTotals" ->
  Main.formatResponse (o :: rest) parsed question
  = (filtered <- Main.refine (o :: rest) parsed question ;;
     if truthyV (year parsed) && truthyV (salesRep parsed)
     then s <- Main.monthly_text parsed filtered ;; Ok (Text s)
     else Ok (AskModelWithData question (firstn 200 filtered))).
Proof.
  intros Hi. unfold Main.formatResponse. rewrite Hi.
  change (is_str (vstr "monthlyTotals") "general") with false.
  change (is_str (vstr "monthlyTotals") "count") with false.
  change (is_str (vstr "monthlyTotals") "list") with false.
  change (is_str (vstr "monthlyTotals") "sample") with false.
  change (is_str (vstr "monthlyTotals") "topCustomers") with false.
  change (is_str (vstr "monthlyTotals") "topDivision") with false.
  change (is_str (vstr "monthlyTotals") "topSales") with false.
  change (is_str (vstr "monthlyTotals") "monthlyTotals") with true.
  cbv iota. cbn [andb]. reflexivity.
Qed.

Lemma Pg_formatResponse_monthly {rt : Runtime}
    (o : order) (rest : list order) (parsed : descriptor) (question : string) :
  intent parsed = vstr "monthlyTotals" ->
  Pg.formatResponse (o :: rest) parsed question
  = if truthyV (year parsed) && truthyV (salesRep parsed)
    then s <- Pg.monthly_text parsed (o :: rest) ;; Ok (Text s)
    else Ok (Text "Intent not implemented yet.").
Proof.
  intros Hi. unfold Pg.formatResponse. rewrite Hi.
  change (is_str (vstr "monthlyTotals") "general") with false.
  change (is_str (vstr "monthlyTotals") "count") with false.
  change (is_str (vstr "monthlyTotals") "list") with false.
  change (is_str (vstr "monthlyTotals") "topCustomers") with false.
  change (is_str (vstr "monthlyTotals") "topDivision") with false.
  change (is_str (vstr "monthlyTotals") "topSales") with false.
  change (is_str (vstr "monthlyTotals") "monthlyTotals") with true.
  cbv iota. cbn [andb]. reflexivity.
Qed.




(** ** The keys of an object *)

Lemma has_In (o : obj) (k : string) : has o k = true <-> In k (map fst o).
Proof.
  induction o as [|[k0 v0] o IH]; cbn [has map fst In]; [split; [discriminate|tauto]|].
  rewrite orb_true_iff, IH, String.eqb_eq. split; intros [H|H]; auto.
Qed.

Lemma has_existsb (o : obj) (k : string) :
  existsb (String.eqb k) (map fst o) = has o k.
Proof.
  induction o as [|[k0 v0] o IH]; cbn [has map fst existsb]; [reflexivity|].
  now rewrite IH.
Qed.

Lemma get_absent (o : obj) (k : string) : has o k = false -> get o k = PUndef.
Proof.
  induction o as [|[k0 v0] o IH]; cbn [has get]; [reflexivity|].
  intros H. apply orb_false_iff in H as [H0 H]. rewrite H0. now apply IH.
Qed.

Lemma get_In (o : obj) (k : string) (v : prim) :
  NoDup (map fst o) -> In (k, v) o -> get o k = v.
Proof.
  induction o as [|[k0 v0] o IH]; cbn [map fst get In]; intros Hnd Hin; [destruct Hin|].
  inversion Hnd as [|? ? Hk0 Hnd']; subst.
  destruct Hin as [E | Hin].
  - injection E as -> ->. now rewrite String.eqb_refl.
  - destruct (String.eqb k k0) eqn:E.
    + apply String.eqb_eq in E. subst k0. exfalso. apply Hk0.
      apply in_map_iff. now exists (k, v).
    + now apply IH.
Qed.

Lemma keys_update (o : obj) (k : string) (v : prim) :
  map fst (update o k v) = map fst o.
Proof.
  induction o as [|[k0 v0] o IH]; cbn [update map fst]; [reflexivity|].
  destruct (String.eqb k k0); cbn [map fst]; now rewrite ?IH.
Qed.

Lemma keys_insert_index (o : obj) (i : Z) (k : string) (v : prim) :
  Permutation (k :: map fst o) (map fst (insert_index o i k v)).
Proof.
  induction o as [|[k0 v0] o IH]; cbn [insert_index map fst]; [apply Permutation_refl|].
  destruct (array_index k0) as [j|]; [destruct (j <? i)|]; cbn [map fst];
    try apply Permutation_refl.
  eapply Permutation_trans; [apply perm_swap | now apply perm_skip].
Qed.

Lemma keys_set_present (o : obj) (k : string) (v : prim) :
  has o k = true -> map fst (set o k v) = map fst o.
Proof. intros H. unfold set. rewrite H. apply keys_update. Qed.

Lemma keys_set_absent (o : obj) (k : string) (v : prim) :
  has o k = false -> Permutation (k :: map fst o) (map fst (set o k v)).
Proof.
  intros H. unfold set. rewrite H. destruct (array_index k).
  - apply keys_insert_index.
  - rewrite map_app. cbn [map fst]. apply Permutation_cons_append.
Qed.

Lemma keys_set_plain (o : obj) (k : string) (v : prim) :
  has o k = false -> array_index k = None ->
  map fst (set o k v) = (map fst o ++ [k])%list.
Proof. intros H Hi. unfold set. rewrite H, Hi. now rewrite map_app. Qed.

Lemma NoDup_keys_set (o : obj) (k : string) (v : prim) :
  NoDup (map fst o) -> NoDup (map fst (set o k v)).
Proof.
  intros Hnd. destruct (has o k) eqn:H.
  - now rewrite keys_set_present.
  - eapply Permutation_NoDup; [now apply keys_set_absent|].
    constructor; [|exact Hnd]. intros Hin. apply has_In in Hin. congruence.
Qed.

Lemma In_keys_set (o : obj) (k k' : string) (v : prim) :
  In k' (map fst (set o k v)) <-> k' = k \/ In k' (map fst o).
Proof.
  rewrite <- !has_In, has_set, orb_true_iff, String.eqb_eq. reflexivity.
Qed.

(** ** Grouping (formatResponse, ranked intents) *)

Section Grouping.
Variable key : string.

Lemma group_sum_fold (l : list order) : group_sum key l = fold_left (group_step key) l [].
Proof. reflexivity. Qed.

Lemma fold_group_NoDup (l : list order) :
  forall m0, NoDup (map fst m0) -> NoDup (map fst (fold_left (group_step key) l m0)).
Proof.
  induction l as [|o l IH]; intros m0 H; cbn [fold_left]; [exact H|].
  apply IH. unfold group_step, accumulate. now apply NoDup_keys_set.
Qed.

Lemma fold_group_keys (l : list order) :
  forall m0 name,
    In name (map fst (fold_left (group_step key) l m0))
    <-> In name (map fst m0) \/ In name (map (group_name key) l).
Proof.
  induction l as [|o l IH]; intros m0 name; cbn [fold_left map In]; [tauto|].
  rewrite IH. unfold group_step at 1, accumulate. rewrite In_keys_set.
  split; intros H; intuition auto.
Qed.

Lemma fold_group_order (l : list order) :
  forall m0,
    (forall o, In o l -> array_index (group_name key o) = None) ->
    map fst (fold_left (group_step key) l m0)
    = add_new (map fst m0) (map (group_name key) l).
Proof.
  induction l as [|o l IH]; intros m0 H; cbn [fold_left map add_new]; [reflexivity|].
  rewrite IH by (intros o' Ho'; apply H; now right). f_equal.
  unfold group_step, accumulate. rewrite has_existsb.
  destruct (has m0 (group_name key o)) eqn:E.
  - now apply keys_set_present.
  - apply keys_set_plain; [exact E | apply H; now left].
Qed.

End Grouping.

Lemma strip10_nonzero (fuel : nat) :
  forall m e, m <> 0 -> fst (strip10 fuel m e) <> 0.
Proof.
  induction fuel as [|f IH]; intros m e H; cbn [strip10]; [exact H|].
  destruct (m mod 10 =? 0) eqn:E; [|exact H].
  apply IH. apply Z.eqb_eq in E.
  pose proof (Z.div_mod m 10 ltac:(lia)) as Hm. rewrite E in Hm. lia.
Qed.

Lemma mkFin_clean (m e : Z) : clean (mkFin m e).
Proof.
  unfold mkFin, clean. destruct (m =? 0) eqn:E.
  - exists 0, 0. now split.
  - apply Z.eqb_neq in E.
    pose proof (strip10_nonzero (Z.to_nat (Z.log2 (Z.abs m))) m e E) as Hs.
    destruct (strip10 _ m e) as [m' e']. cbn [fst] in Hs.
    exists m', e'. split; [reflexivity | congruence].
Qed.

Lemma add_fin_clean (a b : num) : clean a -> is_finite b = true -> clean (Num.add a b).
Proof.
  intros (m & e & -> & _) Hb. destruct b; try discriminate.
  cbn [Num.add]. apply mkFin_clean.
Qed.

Lemma zero_clean : clean zero.
Proof. exists 0, 0. now split. Qed.

Lemma js_or_clean (v : num) : clean v -> js_or (PNum v) (PNum zero) = PNum v.
Proof.
  intros (m & e & -> & Hz). unfold js_or. cbn [truthy].
  destruct (m =? 0) eqn:E; [|reflexivity].
  apply Z.eqb_eq in E. subst m. now rewrite (Hz eq_refl).
Qed.

Lemma is_fin_amount (v : prim) :
  is_fin v = true -> exists a, v = PNum a /\ is_finite a = true.
Proof. destruct v as [| | |[]|]; try discriminate. intros _. now eexists. Qed.

Section GroupTotals.
Variable key : string.

Lemma group_step_value (m0 : obj) (o : order) :
  stored_clean m0 -> is_fin (get o "amount") = true ->
  exists v, get (group_step key m0 o) (group_name key o) = PNum v /\ clean v
            /\ v = Num.add (start m0 (group_name key o)) (toNumber (get o "amount")).
Proof.
  intros Hm Ha. destruct (is_fin_amount _ Ha) as (a & Ea & Hfin).
  unfold group_step, accumulate. rewrite get_set_same. unfold start. rewrite Ea.
  destruct (has m0 (group_name key o)) eqn:H.
  - destruct (Hm _ H) as (v & Ev & Hv). rewrite Ev, (js_or_clean v Hv).
    exists (Num.add v a). cbn [js_add toNumber]. split; [reflexivity|].
    split; [now apply add_fin_clean | reflexivity].
  - rewrite (get_absent _ _ H). exists (Num.add zero a).
    split; [reflexivity|]. split; [|reflexivity].
    apply add_fin_clean; [apply zero_clean | exact Hfin].
Qed.

Lemma group_step_clean (m0 : obj) (o : order) :
  stored_clean m0 -> is_fin (get o "amount") = true ->
  stored_clean (group_step key m0 o).
Proof.
  intros Hm Ha name Hn.
  destruct (String.eqb name (group_name key o)) eqn:E.
  - apply String.eqb_eq in E. subst name.
    destruct (group_step_value m0 o Hm Ha) as (v & Ev & Hv & _). now exists v.
  - unfold group_step, accumulate in *. rewrite has_set, E in Hn.
    rewrite get_set, E. now apply Hm.
Qed.

Lemma fold_group_sums (l : list order) :
  forall m0,
    stored_clean m0 ->
    (forall o, In o l -> is_fin (get o "amount") = true) ->
    forall name,
      has (fold_left (group_step key) l m0) name = true ->
      get (fold_left (group_step key) l m0) name
      = PNum (fold_left Num.add (amounts key name l) (start m0 name)).
Proof.
  induction l as [|o l IH]; intros m0 Hm Hl name Hn; cbn [fold_left] in *.
  - unfold amounts, start. cbn [filter map fold_left]. rewrite Hn.
    destruct (Hm _ Hn) as (v & -> & _). reflexivity.
  - assert (Ha : is_fin (get o "amount") = true) by (apply Hl; now left).
    rewrite (IH (group_step key m0 o) (group_step_clean m0 o Hm Ha)
               (fun o' Ho' => Hl o' (or_intror Ho')) name Hn).
    f_equal. unfold amounts. cbn [filter].
    destruct (String.eqb (group_name key o) name) eqn:E.
    + apply String.eqb_eq in E. subst name. cbn [map fold_left]. f_equal.
      destruct (group_step_value m0 o Hm Ha) as (v & Ev & _ & Hv).
      unfold start at 1.
      assert (Hh : has (group_step key m0 o) (group_name key o) = true).
      { unfold group_step, accumulate. rewrite has_set, String.eqb_refl. reflexivity. }
      rewrite Hh, Ev. cbn [toNumber]. exact Hv.
    + f_equal. unfold start, group_step, accumulate.
      rewrite has_set, get_set. rewrite String.eqb_sym in E. now rewrite E.
Qed.

Lemma group_sum_totals (l : list order) (name : string) (v : prim) :
  (forall o, In o l -> is_fin (get o "amount") = true) ->
  In (name, v) (entries (group_sum key l)) ->
  v = PNum (group_total key name l) /\ is_fin v = true.
Proof.
  intros Hl Hin. unfold entries in Hin.
  assert (Hnd : NoDup (map fst (group_sum key l))).
  { apply fold_group_NoDup. constructor. }
  assert (Hh : has (group_sum key l) name = true).
  { apply has_In. apply in_map_iff. now exists (name, v). }
  pose proof (get_In _ _ _ Hnd Hin) as Hg.
  assert (Hclean : stored_clean []) by (intros n Hn; discriminate).
  pose proof (fold_group_sums l [] Hclean Hl name Hh) as Hs.
  change (fold_left (group_step key) l []) with (group_sum key l) in Hs.
  split; [rewrite <- Hg; exact Hs|].
  assert (Hc : stored_clean (group_sum key l)).
  { clear -Hl Hclean. unfold group_sum.
    change (stored_clean (fold_left (group_step key) l [])).
    revert Hclean. generalize (@nil (string * prim)).
    induction l as [|o l IH]; intros m0 Hm; cbn [fold_left]; [exact Hm|].
    apply IH; [intros; apply Hl; now right|].
    apply group_step_clean; [exact Hm | apply Hl; now left]. }
  destruct (Hc _ Hh) as (w & Ew & (m & e & -> & _)).
  rewrite <- Hg, Ew. reflexivity.
Qed.

End GroupTotals.

(** ** The comparator of the ranked intents *)

Lemma lt_not_le (a b : num) :
  a <> NaN -> b <> NaN -> Num.lt a b = negb (Num.le b a).
Proof.
  unfold Num.lt, Num.le.
  destruct a, b; cbn [Num.cmp]; intros; try congruence; try reflexivity.
  rewrite (Z.min_comm e0 e).
  rewrite (Z.compare_antisym (m * 10 ^ (e - Z.min e e0))).
  now destruct (m * 10 ^ (e - Z.min e e0) ?= m0 * 10 ^ (e0 - Z.min e e0)).
Qed.

Lemma sub_gt_zero (ma ea mb eb : Z) :
  Num.gt (Num.sub (Fin mb eb) (Fin ma ea)) zero = Num.lt (Fin ma ea) (Fin mb eb).
Proof.
  unfold Num.sub. cbn [Num.neg Num.add]. rewrite gt_mkFin_zero.
  unfold Num.lt. cbn [Num.cmp]. rewrite (Z.min_comm ea eb).
  set (p := ma * 10 ^ (ea - Z.min eb ea)). set (q := mb * 10 ^ (eb - Z.min eb ea)).
  replace (- ma * 10 ^ (ea - Z.min eb ea)) with (- p) by (unfold p; lia).
  destruct (p ?= q) eqn:E;
    rewrite ?Z.compare_eq_iff, ?Z.compare_lt_iff, ?Z.compare_gt_iff in E;
    [apply Z.ltb_ge | apply Z.ltb_lt | apply Z.ltb_ge]; lia.
Qed.

Lemma placed_after_by_amount (a b : string * prim) :
  is_fin (snd a) = true -> is_fin (snd b) = true ->
  placed_after by_amount_desc a b = Num.lt (toNumber (snd a)) (toNumber (snd b)).
Proof.
  destruct a as [ka [| | |[]|]], b as [kb [| | |[]|]]; try discriminate.
  intros _ _. unfold placed_after, by_amount_desc, js_sub. cbn [snd toNumber].
  apply sub_gt_zero.
Qed.

Lemma fin_not_nan (v : prim) : is_fin v = true -> toNumber v <> NaN.
Proof. destruct v as [| | |[]|]; intros H; discriminate. Qed.

Lemma by_amount_consistent :
  consistent by_amount_desc (fun e => is_fin (snd e) = true).
Proof.
  split.
  - intros x y Hx Hy. rewrite !placed_after_by_amount by assumption.
    rewrite !lt_not_le by (now apply fin_not_nan).
    intros H. apply negb_true_iff in H. apply negb_false_iff.
    destruct (le_total (toNumber (snd x)) (toNumber (snd y)))
      as [H1|H1]; auto using fin_not_nan. congruence.
  - intros x y z Hx Hy Hz. rewrite !placed_after_by_amount by assumption.
    rewrite !lt_not_le by (now apply fin_not_nan).
    intros H1 H2. apply negb_false_iff in H1, H2. apply negb_false_iff.
    eapply le_trans; eauto.
Qed.

(** ** The slice *)

Lemma strip10_value (fuel : nat) :
  forall m e,
    e <= snd (strip10 fuel m e)
    /\ m = fst (strip10 fuel m e) * 10 ^ (snd (strip10 fuel m e) - e).
Proof.
  induction fuel as [|f IH]; intros m e; cbn [strip10].
  - cbn [fst snd]. rewrite Z.sub_diag. cbn. lia.
  - destruct (m mod 10 =? 0) eqn:E.
    + destruct (IH (m / 10) (e + 1)) as [Hle Hv].
      split; [lia|].
      apply Z.eqb_eq in E.
      pose proof (Z.div_mod m 10 ltac:(lia)) as Hm. rewrite E in Hm.
      set (r := strip10 f (m / 10) (e + 1)) in *.
      replace (snd r - e) with (1 + (snd r - (e + 1))) by lia.
      rewrite pow10_split by lia. change (10 ^ 1) with 10. lia.
    + cbn [fst snd]. rewrite Z.sub_diag. cbn. lia.
Qed.

Lemma toInteger_of_Z (n : Z) : toIntegerOrInfinity (of_Z n) = IInt n.
Proof.
  unfold of_Z, mkFin. destruct (n =? 0) eqn:E.
  - apply Z.eqb_eq in E. now subst n.
  - destruct (strip10_value (Z.to_nat (Z.log2 (Z.abs n))) n 0) as [Hle Hv].
    destruct (strip10 _ n 0) as [m' e']. cbn [fst snd] in *.
    cbn [toIntegerOrInfinity].
    assert (H0 : (0 <=? e') = true) by now apply Z.leb_le.
    rewrite H0. f_equal. rewrite Z.sub_0_r in Hv. now symmetry.
Qed.

Lemma truthy_of_Z (n : Z) : n <> 0 -> truthy (PNum (of_Z n)) = true.
Proof.
  intros H. unfold of_Z, mkFin.
  assert (E : (n =? 0) = false) by now apply Z.eqb_neq.
  rewrite E.
  pose proof (strip10_nonzero (Z.to_nat (Z.log2 (Z.abs n))) n 0 H) as Hs.
  destruct (strip10 _ n 0) as [m' e']. cbn [fst] in Hs. cbn [truthy].
  apply negb_true_iff. now apply Z.eqb_neq.
Qed.

Lemma topN_end_value (parsed : descriptor) (n : Z) :
  1 <= n ->
  topN parsed = vnum n \/ (truthyV (topN parsed) = false /\ n = 1) ->
  topN_end parsed = IInt n.
Proof.
  intros Hn [E | [E ->]]; unfold topN_end, v_or.
  - rewrite E. unfold vnum. cbn [truthyV]. rewrite truthy_of_Z by lia.
    cbn [toNumberV toNumber]. apply toInteger_of_Z.
  - rewrite E. reflexivity.
Qed.

Lemma slice0_firstn {A} (l : list A) (n : Z) :
  0 <= n -> slice0 l (IInt n) = firstn (Z.to_nat n) l.
Proof.
  intros Hn. unfold slice0, slice_count.
  assert (E : (n <? 0) = false) by now apply Z.ltb_ge.
  rewrite E.
  destruct (Z.le_ge_cases n (Z.of_nat (List.length l))) as [H|H].
  - now rewrite Z.min_l.
  - rewrite Z.min_r by lia. rewrite Nat2Z.id.
    rewrite firstn_all. symmetry. apply firstn_all2. lia.
Qed.

Lemma mapi_from_length {A B} (f : A -> nat -> B) (l : list A) :
  forall i, List.length (mapi_from i f l) = List.length l.
Proof.
  induction l as [|x t IH]; intros i; cbn [mapi_from List.length]; [reflexivity|].
  now rewrite IH.
Qed.

Lemma mapi_from_nth {A B} (f : A -> nat -> B) (l : list A) :
  forall i j x, nth_error l j = Some x ->
                nth_error (mapi_from i f l) j = Some (f x (i + j)%nat).
Proof.
  induction l as [|y t IH]; intros i j x H; [destruct j; discriminate|].
  destruct j as [|j]; cbn [mapi_from nth_error] in *.
  - injection H as ->. now rewrite Nat.add_0_r.
  - rewrite (IH (S i) j x H). f_equal. f_equal. lia.
Qed.

(** ** The ranked intents (formatResponse) *)

Lemma StronglySorted_weaken_dom {A} (dom : A -> Prop) (R R' : A -> A -> Prop)
    (l : list A) :
  Forall dom l ->
  (forall a b, dom a -> dom b -> R a b -> R' a b) ->
  StronglySorted R l -> StronglySorted R' l.
Proof.
  intros Hd H Hs. induction Hs as [|x t Hs IH Hx]; constructor.
  - apply IH. now inversion Hd.
  - inversion Hd as [|? ? Hdx Hdt]; subst.
    rewrite Forall_forall in *. intros b Hb. apply H; auto.
Qed.

Lemma Main_formatResponse_ranked {rt : Runtime}
    (i label key : string) (o : order) (rest : list order)
    (parsed : descriptor) (question : string) :
  In (i, (label, key)) ranked_intents ->
  intent parsed = vstr i ->
  Main.formatResponse (o :: rest) parsed question
  = (filtered <- Main.refine (o :: rest) parsed question ;;
     Ok (Text (Main.top_text label key filtered parsed))).
Proof.
  intros Hin Hi. unfold Main.formatResponse. rewrite Hi.
  destruct Hin as [E | [E | [E | []]]]; injection E as <- <- <-; reflexivity.
Qed.




(** ** Writing and reading decimal digits *)

Lemma digit_char_val (d : Z) :
  0 <= d <= 9 -> is_digit (digit_char d) = true /\ digit_val (digit_char d) = d.
Proof.
  intros H.
  assert (E : d = 0 \/ d = 1 \/ d = 2 \/ d = 3 \/ d = 4 \/ d = 5 \/ d = 6 \/ d = 7
              \/ d = 8 \/ d = 9) by lia.
  repeat (destruct E as [-> | E]; [split; reflexivity|]). subst d. split; reflexivity.
Qed.

Lemma digits_value_app (a b : string) :
  forall acc, digits_value acc (a ++ b) = digits_value (digits_value acc a) b.
Proof.
  induction a as [|c a IH]; intros acc; cbn [append digits_value]; [reflexivity|].
  apply IH.
Qed.

Lemma length_append (a b : string) :
  String.length (a ++ b) = (String.length a + String.length b)%nat.
Proof.
  induction a as [|c a IH]; cbn [append String.length]; [reflexivity|]. now rewrite IH.
Qed.

Lemma append_nil_r (a : string) : a ++ "" = a.
Proof. induction a as [|c a IH]; cbn [append]; [reflexivity|]. now rewrite IH. Qed.

Lemma append_assoc (a b c : string) : (a ++ b) ++ c = a ++ (b ++ c).
Proof. induction a as [|x a IH]; cbn [append]; [reflexivity|]. now rewrite IH. Qed.

Lemma digits_fuel_spec (f : nat) :
  forall n acc,
    0 <= n < 2 ^ Z.of_nat (S f) ->
    exists ds, digits_fuel (S f) n acc = ds ++ acc /\ writes ds n.
Proof.
  induction f as [|f IH]; intros n acc Hn.
  - assert (Hlt : n < 10) by (change (2 ^ Z.of_nat 1) with 2 in Hn; lia).
    cbn [digits_fuel]. apply Z.ltb_lt in Hlt as Hb. rewrite Hb.
    rewrite Z.mod_small by lia.
    destruct (digit_char_val n ltac:(lia)) as [Hd Hv].
    exists (String (digit_char n) ""). split; [reflexivity|].
    split; [cbn [all_digits]; now rewrite Hd|]. split; [discriminate|].
    intros a. cbn [digits_value String.length]. rewrite Hv.
    change (10 ^ Z.of_nat 1) with 10. lia.
  - cbn [digits_fuel]. destruct (n <? 10) eqn:Hb.
    + apply Z.ltb_lt in Hb. rewrite Z.mod_small by lia.
      destruct (digit_char_val n ltac:(lia)) as [Hd Hv].
      exists (String (digit_char n) ""). split; [reflexivity|].
      split; [cbn [all_digits]; now rewrite Hd|]. split; [discriminate|].
      intros a. cbn [digits_value String.length]. rewrite Hv.
      change (10 ^ Z.of_nat 1) with 10. lia.
    + apply Z.ltb_ge in Hb.
      assert (Hq : 0 <= n / 10 < 2 ^ Z.of_nat (S f)).
      { split; [apply Z.div_pos; lia|].
        apply Z.div_lt_upper_bound; [lia|].
        replace (Z.of_nat (S (S f))) with (1 + Z.of_nat (S f)) in Hn by lia.
        rewrite Z.pow_add_r in Hn by lia. change (2 ^ 1) with 2 in Hn. lia. }
      destruct (IH (n / 10) (String (digit_char (n mod 10)) acc) Hq)
        as (ds & E & Hall & Hne & Hval).
      pose proof (Z.mod_pos_bound n 10 ltac:(lia)) as Hm.
      destruct (digit_char_val (n mod 10) ltac:(lia)) as [Hd Hv].
      exists (ds ++ String (digit_char (n mod 10)) "").
      split.
      { change (digits_fuel (S f) (n / 10) (String (digit_char (n mod 10)) acc)
                = (ds ++ String (digit_char (n mod 10)) "") ++ acc).
        rewrite E, append_assoc. reflexivity. }
      split.
      { rewrite all_digits_app, Hall. cbn [all_digits]. now rewrite Hd. }
      split.
      { destruct ds; [congruence | discriminate]. }
      intros a. rewrite digits_value_app, Hval. cbn [digits_value].
      rewrite Hv, length_append. cbn [String.length].
      replace (Z.of_nat (String.length ds + 1)) with (Z.of_nat (String.length ds) + 1)
        by lia.
      rewrite Z.pow_add_r by lia. change (10 ^ 1) with 10.
      pose proof (Z.div_mod n 10 ltac:(lia)). lia.
Qed.

Lemma digits_of_writes (n : Z) : 0 <= n -> writes (digits_of n) n.
Proof.
  intros Hn. unfold digits_of.
  destruct (digits_fuel_spec (Z.to_nat (Z.log2 n)) n "") as (ds & E & H).
  - split; [exact Hn|].
    destruct (Z.eq_dec n 0) as [->|Hz]; [cbn; lia|].
    replace (Z.of_nat (S (Z.to_nat (Z.log2 n)))) with (Z.succ (Z.log2 n))
      by (pose proof (Z.log2_nonneg n); lia).
    apply Z.log2_spec. lia.
  - rewrite E, append_nil_r. exact H.
Qed.

Lemma writes_value (ds : string) (n : Z) : writes ds n -> digits_value 0 ds = n.
Proof. intros (_ & _ & H). rewrite H. lia. Qed.

Lemma span_digits_app (a r : string) :
  all_digits a = true -> no_digit_ahead r = true -> span_digits (a ++ r) = (a, r).
Proof.
  intros Ha Hr. induction a as [|c a IH]; cbn [append].
  - destruct r as [|c r]; [reflexivity|]. cbn [span_digits].
    cbn [no_digit_ahead] in Hr. apply negb_true_iff in Hr. now rewrite Hr.
  - cbn [all_digits] in Ha. apply andb_true_iff in Ha as [Hc Ha].
    cbn [span_digits]. rewrite Hc, (IH Ha). reflexivity.
Qed.

Lemma span_digits_all (a : string) :
  all_digits a = true -> span_digits a = (a, "").
Proof.
  intros Ha. rewrite <- (append_nil_r a) at 1. now apply span_digits_app.
Qed.

Lemma all_digits_repeat0 (j : nat) : all_digits (Str.repeat0 j) = true.
Proof. induction j as [|j IH]; cbn [Str.repeat0 all_digits]; [reflexivity|]. exact IH. Qed.

Lemma length_repeat0 (j : nat) : String.length (Str.repeat0 j) = j.
Proof. induction j as [|j IH]; cbn [Str.repeat0 String.length]; congruence. Qed.

Lemma digits_value_repeat0 (j : nat) :
  forall acc, digits_value acc (Str.repeat0 j) = acc * 10 ^ Z.of_nat j.
Proof.
  induction j as [|j IH]; intros acc; cbn [Str.repeat0 digits_value].
  - cbn. lia.
  - rewrite IH. change (digit_val "0") with 0.
    replace (Z.of_nat (S j)) with (1 + Z.of_nat j) by lia.
    rewrite Z.pow_add_r by lia. change (10 ^ 1) with 10. lia.
Qed.

Lemma take_drop (n : nat) (s : string) : Str.take n s ++ Str.drop n s = s.
Proof.
  revert s. induction n as [|n IH]; intros s; cbn [Str.take Str.drop append].
  - reflexivity.
  - destruct s as [|c s]; cbn [append]; [reflexivity|]. now rewrite IH.
Qed.

Lemma length_take (n : nat) (s : string) :
  (n <= String.length s)%nat -> String.length (Str.take n s) = n.
Proof.
  revert s. induction n as [|n IH]; intros s H; cbn [Str.take String.length].
  - reflexivity.
  - destruct s as [|c s]; cbn [String.length] in *; [lia|]. rewrite IH; lia.
Qed.

Lemma all_digits_take_drop (n : nat) (s : string) :
  all_digits s = true ->
  all_digits (Str.take n s) = true /\ all_digits (Str.drop n s) = true.
Proof.
  intros H. rewrite <- (take_drop n s), all_digits_app in H.
  now apply andb_true_iff in H.
Qed.

(** ** Canonical decimals *)

Lemma strip10_scale (j : nat) :
  forall fuel m e,
    m mod 10 <> 0 -> (j <= fuel)%nat ->
    strip10 fuel (m * 10 ^ Z.of_nat j) e = (m, e + Z.of_nat j).
Proof.
  induction j as [|j IH]; intros fuel m e Hm Hj.
  - cbn [Z.of_nat]. rewrite Z.pow_0_r, Z.mul_1_r, Z.add_0_r.
    destruct fuel as [|f]; cbn [strip10]; [reflexivity|].
    apply Z.eqb_neq in Hm. now rewrite Hm.
  - destruct fuel as [|f]; [lia|]. cbn [strip10].
    replace (Z.of_nat (S j)) with (Z.of_nat j + 1) by lia.
    rewrite Z.pow_add_r by lia. change (10 ^ 1) with 10.
    rewrite Z.mul_assoc.
    rewrite Z.mod_mul by lia. rewrite Z.eqb_refl.
    rewrite Z.div_mul by lia.
    rewrite IH by (auto; lia). f_equal. lia.
Qed.

Lemma canonical_nonzero (m : Z) : m mod 10 <> 0 -> m <> 0.
Proof. intros H E. subst m. now apply H. Qed.

Lemma mkFin_scale (m e : Z) (j : nat) :
  m mod 10 <> 0 -> mkFin (m * 10 ^ Z.of_nat j) e = Fin m (e + Z.of_nat j).
Proof.
  intros Hm. pose proof (canonical_nonzero m Hm) as Hz.
  assert (Hp : 0 < 10 ^ Z.of_nat j) by (apply pow10_pos; lia).
  unfold mkFin.
  assert (E : (m * 10 ^ Z.of_nat j =? 0) = false) by (apply Z.eqb_neq; nia).
  rewrite E. rewrite strip10_scale; [reflexivity | exact Hm |].
  apply Nat2Z.inj_le. rewrite Z2Nat.id by apply Z.log2_nonneg.
  assert (H2 : 2 ^ Z.of_nat j <= Z.abs (m * 10 ^ Z.of_nat j)).
  { rewrite Z.abs_mul, (Z.abs_eq (10 ^ Z.of_nat j)) by lia.
    assert (2 ^ Z.of_nat j <= 10 ^ Z.of_nat j)
      by (apply Z.pow_le_mono_l; lia).
    assert (1 <= Z.abs m) by lia. nia. }
  apply Z.log2_le_mono in H2. rewrite Z.log2_pow2 in H2 by lia. exact H2.
Qed.

Lemma mkFin_canonical (m e : Z) : m mod 10 <> 0 -> mkFin m e = Fin m e.
Proof.
  intros Hm. pose proof (mkFin_scale m e 0 Hm) as H.
  cbn [Z.of_nat] in H. now rewrite Z.pow_0_r, Z.mul_1_r, Z.add_0_r in H.
Qed.

Lemma strip10_canonical (fuel : nat) :
  forall m e,
    m <> 0 -> Z.abs m < 2 ^ Z.of_nat (S fuel) ->
    fst (strip10 fuel m e) mod 10 <> 0.
Proof.
  induction fuel as [|f IH]; intros m e Hm Hb.
  - cbn [strip10 fst]. change (2 ^ Z.of_nat 1) with 2 in Hb.
    assert (E : m = 1 \/ m = -1) by lia. destruct E as [-> | ->]; discriminate.
  - cbn [strip10]. destruct (m mod 10 =? 0) eqn:E.
    + apply Z.eqb_eq in E.
      pose proof (Z.div_mod m 10 ltac:(lia)) as Hd. rewrite E in Hd.
      apply IH; [lia|].
      replace (Z.of_nat (S (S f))) with (1 + Z.of_nat (S f)) in Hb by lia.
      rewrite Z.pow_add_r in Hb by lia. change (2 ^ 1) with 2 in Hb. lia.
    + cbn [fst]. now apply Z.eqb_neq.
Qed.

(** The numbers built by [mkFin] are zero or have a mantissa that ten does
    not divide. *)
Lemma mkFin_is_canonical (m e : Z) :
  mkFin m e = zero \/ exists m' e', mkFin m e = Fin m' e' /\ m' mod 10 <> 0.
Proof.
  unfold mkFin. destruct (m =? 0) eqn:E; [now left | right].
  apply Z.eqb_neq in E.
  pose proof (strip10_canonical (Z.to_nat (Z.log2 (Z.abs m))) m e E) as H.
  destruct (strip10 _ m e) as [m' e']. cbn [fst] in H.
  exists m', e'. split; [reflexivity|]. apply H.
  replace (Z.of_nat (S (Z.to_nat (Z.log2 (Z.abs m))))) with (Z.succ (Z.log2 (Z.abs m)))
    by (pose proof (Z.log2_nonneg (Z.abs m)); lia).
  apply Z.log2_spec. lia.
Qed.

(** ** Reading back the text of a number *)

Lemma digit_head_facts (c : ascii) (rest : string) :
  is_digit c = true ->
  Str.trimStart (String c rest) = String c rest
  /\ read_sign (String c rest) = (false, String c rest)
  /\ String.prefix "Infinity" (String c rest) = false
  /\ no_digit_ahead (String c rest) = false.
Proof.
  intros H. cbn [no_digit_ahead]. rewrite H.
  destruct c as [[] [] [] [] [] [] [] []]; try discriminate H; repeat split.
Qed.

Lemma writes_head (ds : string) (n : Z) :
  writes ds n -> exists c t, ds = String c t /\ is_digit c = true.
Proof.
  intros (Ha & Hne & _). destruct ds as [|c t]; [congruence|].
  exists c, t. split; [reflexivity|]. cbn [all_digits] in Ha.
  now apply andb_true_iff in Ha.
Qed.

Lemma read_exponent_text (x : Z) :
  read_exponent ("e" ++ exponent_text x) = (x, "").
Proof.
  unfold exponent_text.
  pose proof (digits_of_writes (Z.abs x) (Z.abs_nonneg x)) as Hw.
  pose proof (writes_value _ _ Hw) as Hv.
  destruct Hw as (Ha & Hne & _).
  destruct (digits_of (Z.abs x)) as [|d dd] eqn:Ed; [congruence|].
  destruct (x <? 0) eqn:Ex.
  - cbn [append read_exponent Ascii.eqb Bool.eqb orb read_sign].
    rewrite (span_digits_all _ Ha). rewrite Hv.
    apply Z.ltb_lt in Ex. f_equal. lia.
  - cbn [append read_exponent Ascii.eqb Bool.eqb orb read_sign].
    rewrite (span_digits_all _ Ha). rewrite Hv.
    apply Z.ltb_ge in Ex. f_equal. lia.
Qed.

Lemma read_exponent_nil : read_exponent "" = (0, "").
Proof. reflexivity. Qed.

(** A text made of an integer part, and a fraction part followed by an
    exponent, is read back as the digits and the exponent it shows. *)
Lemma read_decimal_point (ip fp tail : string) (ex : Z) :
  all_digits ip = true -> all_digits fp = true -> ip <> "" ->
  no_digit_ahead tail = true -> read_exponent tail = (ex, "") ->
  read_decimal (ip ++ "." ++ fp ++ tail)
  = Some (digits_value 0 (ip ++ fp), ex - Z.of_nat (String.length fp), "").
Proof.
  intros Hi Hf Hne Ht He. unfold read_decimal.
  rewrite (span_digits_app ip ("." ++ fp ++ tail) Hi eq_refl).
  cbn [append]. rewrite (span_digits_app fp tail Hf Ht).
  destruct ip as [|c ip']; [congruence|]. now rewrite He.
Qed.

Lemma read_decimal_plain (ip tail : string) (ex : Z) :
  all_digits ip = true -> ip <> "" ->
  tail = "" \/ (exists t, tail = String "e" t) ->
  read_exponent tail = (ex, "") ->
  read_decimal (ip ++ tail) = Some (digits_value 0 ip, ex, "").
Proof.
  intros Hi Hne Ht He. unfold read_decimal.
  assert (Hnd : no_digit_ahead tail = true)
    by (destruct Ht as [-> | [t ->]]; reflexivity).
  rewrite (span_digits_app ip tail Hi Hnd).
  destruct ip as [|c ip']; [congruence|].
  destruct Ht as [-> | [t ->]]; now rewrite He.
Qed.

Ltac same_reading :=
  repeat match goal with
         | |- Some _ = Some _ => f_equal
         | |- (_, _) = (_, _) => f_equal
         end; try reflexivity.

Lemma positive_text_read (s e : Z) :
  0 < s ->
  (exists c rest, positive_text s e = String c rest /\ is_digit c = true)
  /\ exists s' e' (j : nat),
       read_decimal (positive_text s e) = Some (s', e', "")
       /\ s' = s * 10 ^ Z.of_nat j /\ e' + Z.of_nat j = e.
Proof.
  intros Hs. unfold positive_text.
  pose proof (digits_of_writes s ltac:(lia)) as Hw.
  pose proof (writes_value _ _ Hw) as Hv.
  destruct (writes_head _ _ Hw) as (c & t & Ed & Hc).
  destruct Hw as (Ha & Hne & Hval).
  set (ds := digits_of s) in *.
  set (k := Z.of_nat (String.length ds)).
  assert (Hk : 1 <= k) by (unfold k; rewrite Ed; cbn [String.length]; lia).
  cbv zeta.
  destruct ((k <=? k + e) && (k + e <=? 21)) eqn:CA.
  { (* digits followed by zeros *)
    apply andb_true_iff in CA as [C1 C2]. apply Z.leb_le in C1, C2.
    replace (k + e - k) with e by lia.
    split.
    - exists c, (t ++ Str.repeat0 (Z.to_nat e)). rewrite Ed. now split.
    - exists (s * 10 ^ Z.of_nat (Z.to_nat e)), 0, (Z.to_nat e).
      split; [|split; [reflexivity | lia]].
      rewrite <- (append_nil_r (ds ++ Str.repeat0 (Z.to_nat e))).
      rewrite (read_decimal_plain (ds ++ Str.repeat0 (Z.to_nat e)) "" 0).
      + rewrite digits_value_app, Hv, digits_value_repeat0. reflexivity.
      + now rewrite all_digits_app, Ha, all_digits_repeat0.
      + rewrite Ed. discriminate.
      + now left.
      + reflexivity. }
  destruct ((0 <? k + e) && (k + e <=? 21)) eqn:CB.
  { (* a decimal point inside the digits *)
    apply andb_true_iff in CB as [C1 C2]. apply Z.ltb_lt in C1. apply Z.leb_le in C2.
    apply andb_false_iff in CA.
    assert (Hlt : k + e < k).
    { destruct CA as [CA|CA]; [apply Z.leb_gt in CA | apply Z.leb_gt in CA]; lia. }
    remember (Z.to_nat (k + e)) as n eqn:En.
    assert (Hn : (0 < n <= String.length ds)%nat) by (unfold k in *; lia).
    destruct (all_digits_take_drop n ds Ha) as [Hat Had].
    split.
    - destruct n as [|n']; [lia|].
      exists c, (Str.take n' t ++ "." ++ Str.drop (S n') ds). rewrite Ed.
      cbn [Str.take append]. now split.
    - exists s, e, O. split; [|split; [cbn; lia | cbn; lia]].
      rewrite <- (append_nil_r (Str.drop n ds)), <- append_assoc.
      replace (Str.take n ds ++ "." ++ Str.drop n ds ++ "")
        with (Str.take n ds ++ "." ++ Str.drop n ds ++ "") by reflexivity.
      rewrite append_assoc.
      rewrite (read_decimal_point (Str.take n ds) (Str.drop n ds) "" 0);
        try assumption; try reflexivity.
      + rewrite take_drop, Hv. same_reading.
        assert (Hl : String.length (Str.take n ds ++ Str.drop n ds) = String.length ds)
          by now rewrite take_drop.
        rewrite length_append, length_take in Hl by lia.
        unfold k in *. lia.
      + rewrite Ed. destruct n as [|n']; [lia|]. discriminate. }
  destruct ((-6 <? k + e) && (k + e <=? 0)) eqn:CC.
  { (* leading zeros after the point *)
    apply andb_true_iff in CC as [C1 C2]. apply Z.ltb_lt in C1. apply Z.leb_le in C2.
    split.
    - exists "0"%char, ("." ++ Str.repeat0 (Z.to_nat (- (k + e))) ++ ds). now split.
    - exists s, e, O. split; [|split; [cbn; lia | cbn; lia]].
      set (z := Str.repeat0 (Z.to_nat (- (k + e)))).
      change ("0." ++ z ++ ds) with ("0" ++ "." ++ (z ++ ds)).
      rewrite <- (append_nil_r (z ++ ds)).
      rewrite (read_decimal_point "0" (z ++ ds) "" 0);
        try reflexivity; try discriminate.
      + cbn [append digits_value]. change (10 * 0 + digit_val "0") with 0.
        rewrite digits_value_app. unfold z. rewrite digits_value_repeat0, Z.mul_0_l, Hv.
        same_reading. rewrite length_append, length_repeat0. unfold k in *. lia.
      + unfold z. now rewrite all_digits_app, all_digits_repeat0, Ha. }
  (* exponential notation *)
  destruct (k =? 1) eqn:CD.
  - apply Z.eqb_eq in CD.
    split.
    + exists c, (t ++ "e" ++ exponent_text (k + e - 1)). rewrite Ed. now split.
    + exists s, e, O. split; [|split; [cbn; lia | cbn; lia]].
      rewrite (read_decimal_plain ds ("e" ++ exponent_text (k + e - 1)) (k + e - 1));
        try assumption.
      * rewrite Hv. same_reading. lia.
      * right. now eexists.
      * apply read_exponent_text.
  - apply Z.eqb_neq in CD.
    destruct (all_digits_take_drop 1 ds Ha) as [Hat Had].
    split.
    + exists c, ("." ++ Str.drop 1 ds ++ "e" ++ exponent_text (k + e - 1)).
      rewrite Ed. now split.
    + exists s, e, O. split; [|split; [cbn; lia | cbn; lia]].
      rewrite (read_decimal_point (Str.take 1 ds) (Str.drop 1 ds)
                 ("e" ++ exponent_text (k + e - 1)) (k + e - 1));
        try assumption; try reflexivity.
      * rewrite take_drop, Hv. same_reading.
        assert (Hl : String.length (Str.take 1 ds ++ Str.drop 1 ds) = String.length ds)
          by now rewrite take_drop.
        rewrite length_append, length_take in Hl by (unfold k in *; lia).
        unfold k in *. lia.
      * rewrite Ed. discriminate.
      * apply read_exponent_text.
Qed.

(** ** The text of a number holds no percent sign and no comma *)

Lemma plain_app (a b : string) : plain (a ++ b) = plain a && plain b.
Proof.
  induction a as [|c a IH]; cbn [append plain]; [reflexivity|].
  rewrite IH. now rewrite !andb_assoc.
Qed.

Lemma plain_digits (ds : string) : all_digits ds = true -> plain ds = true.
Proof.
  induction ds as [|c t IH]; cbn [all_digits plain]; [reflexivity|].
  intros H. apply andb_true_iff in H as [Hc Ht]. rewrite (IH Ht).
  destruct c as [[] [] [] [] [] [] [] []]; try discriminate Hc; reflexivity.
Qed.

Lemma remove_percent_plain (s : string) :
  plain s = true -> Str.remove_first "%" s = s.
Proof.
  induction s as [|c t IH]; cbn [Str.remove_first plain]; [reflexivity|].
  intros H. apply andb_true_iff in H as [H Ht]. apply andb_true_iff in H as [Hp _].
  apply negb_true_iff in Hp. rewrite Ascii.eqb_sym in Hp. rewrite Hp.
  now rewrite (IH Ht).
Qed.

Lemma remove_comma_plain (s : string) :
  plain s = true -> Str.remove_first "," s = s.
Proof.
  induction s as [|c t IH]; cbn [Str.remove_first plain]; [reflexivity|].
  intros H. apply andb_true_iff in H as [H Ht]. apply andb_true_iff in H as [_ Hc].
  apply negb_true_iff in Hc. rewrite Ascii.eqb_sym in Hc. rewrite Hc.
  now rewrite (IH Ht).
Qed.

Lemma remove_first_plain (s : string) :
  plain s = true -> strip_gp s = s.
Proof.
  intros H. unfold strip_gp. rewrite (remove_percent_plain s H).
  now apply remove_comma_plain.
Qed.

Lemma plain_exponent_text (x : Z) : plain (exponent_text x) = true.
Proof.
  unfold exponent_text. rewrite plain_app.
  destruct (digits_of_writes (Z.abs x) (Z.abs_nonneg x)) as (Ha & _).
  rewrite (plain_digits _ Ha). now destruct (x <? 0).
Qed.

Lemma plain_positive_text (s e : Z) : 0 < s -> plain (positive_text s e) = true.
Proof.
  intros Hs. unfold positive_text.
  destruct (digits_of_writes s ltac:(lia)) as (Ha & _).
  set (ds := digits_of s) in *. cbv zeta.
  pose proof (plain_digits _ Ha) as Hp.
  repeat match goal with
         | |- context [if ?b then _ else _] => destruct b
         end;
    rewrite ?plain_app, ?Hp, ?plain_exponent_text;
    try reflexivity.
  - now rewrite (plain_digits _ (all_digits_repeat0 _)).
  - destruct (all_digits_take_drop (Z.to_nat (Z.of_nat (String.length ds) + e)) ds Ha)
      as [H1 H2].
    now rewrite (plain_digits _ H1), (plain_digits _ H2).
  - now rewrite (plain_digits _ (all_digits_repeat0 _)).
  - destruct (all_digits_take_drop 1 ds Ha) as [H1 H2].
    now rewrite (plain_digits _ H1), (plain_digits _ H2).
Qed.

Lemma plain_toString (g : num) : plain (Num.toString g) = true.
Proof.
  destruct g as [| | |m e]; try reflexivity.
  cbn [Num.toString]. destruct (m =? 0) eqn:E0; [reflexivity|].
  apply Z.eqb_neq in E0.
  destruct (m <? 0) eqn:E1.
  - apply Z.ltb_lt in E1. change (plain ("-" ++ positive_text (- m) e) = true).
    rewrite plain_app, plain_positive_text by lia. reflexivity.
  - apply Z.ltb_ge in E1. apply plain_positive_text. lia.
Qed.

(** ** parseFloat reads back the text of a number *)

Lemma parseFloat_positive_text (m e : Z) :
  0 < m -> m mod 10 <> 0 ->
  parseFloat (positive_text m e) = Fin m e
  /\ parseFloat ("-" ++ positive_text m e) = Fin (- m) e.
Proof.
  intros Hm Hc.
  destruct (positive_text_read m e Hm)
    as ((c & rest & Et & Hd) & (s' & e' & j & Er & Es & Ee)).
  destruct (digit_head_facts c rest Hd) as (Htrim & Hsign & Hinf & _).
  unfold parseFloat, read_literal. split.
  - rewrite Et, Htrim, Hsign, Hinf. rewrite <- Et, Er. subst s' e.
    now rewrite mkFin_scale.
  - change (Str.trimStart ("-" ++ positive_text m e)) with ("-" ++ positive_text m e).
    change (read_sign ("-" ++ positive_text m e)) with (true, positive_text m e).
    cbv iota beta. rewrite Et, Hinf. rewrite <- Et, Er. subst s' e.
    rewrite <- Z.mul_opp_l. rewrite mkFin_scale; [reflexivity|].
    intros H. apply Hc. rewrite Z.mod_opp_l_nz in H; try lia.
    + pose proof (Z.mod_pos_bound m 10 ltac:(lia)). lia.
Qed.

Lemma parseFloat_toString (g : num) :
  well_formed g -> parseFloat (Num.toString g) = g.
Proof.
  destruct g as [| | |m e]; cbn [well_formed]; intros H; try reflexivity.
  destruct H as [[-> ->] | Hc]; [reflexivity|].
  pose proof (canonical_nonzero m Hc) as Hz.
  cbn [Num.toString].
  assert (E0 : (m =? 0) = false) by now apply Z.eqb_neq.
  rewrite E0. destruct (m <? 0) eqn:E1.
  - apply Z.ltb_lt in E1.
    assert (Hc' : (- m) mod 10 <> 0).
    { intros H. apply Hc. apply Z.mod_opp_l_z in H; [|lia].
      now rewrite Z.opp_involutive in H. }
    destruct (parseFloat_positive_text (- m) e ltac:(lia) Hc') as [_ H].
    now rewrite Z.opp_involutive in H.
  - apply Z.ltb_ge in E1.
    now destruct (parseFloat_positive_text m e ltac:(lia) Hc) as [H _].
Qed.

Lemma parseFloat_well_formed (s : string) :
  parseFloat s = NaN \/ well_formed (parseFloat s).
Proof.
  unfold parseFloat. destruct (read_literal (Str.trimStart s)) as [[n r]|] eqn:E;
    [|now left].
  right. unfold read_literal in E.
  destruct (read_sign (Str.trimStart s)) as [ng t].
  destruct (String.prefix "Infinity" t).
  - injection E as <- _. now destruct ng.
  - destruct (read_decimal t) as [[[m e] r']|]; [|discriminate].
    injection E as <- _.
    destruct (mkFin_is_canonical (if ng then - m else m) e) as [-> | (m' & e' & -> & H)].
    + left. now split.
    + now right.
Qed.

(** The second reading of the gross-profit rate. *)
Lemma gp_reread (g : num) :
  well_formed g ->
  parseFloat (strip_gp (toStringP (js_or (PNum g) (PStr "0")))) = g.
Proof.
  intros H. unfold js_or.
  destruct (truthy (PNum g)) eqn:T.
  - cbn [toStringP]. rewrite (remove_first_plain _ (plain_toString g)).
    now apply parseFloat_toString.
  - destruct g as [| | |m e]; cbn [truthy] in T; try discriminate; [destruct H|].
    apply negb_false_iff, Z.eqb_eq in T. subst m.
    destruct H as [[_ ->] | H]; [reflexivity | now elim H].
Qed.

(** ** Idempotence of the normalization (summarizeERPData) *)

(** A row that already holds, under the seven derived properties, the
    values the normalization would compute from it, is left as it is. *)
Lemma summarizeOne_fixed (y : order) :
  has y "division" = true -> has y "salesRep" = true -> has y "amount" = true ->
  has y "gpRate" = true -> has y "status" = true -> has y "date" = true ->
  has y "so_number" = true ->
  get y "division" = js_or (get y "Name_Dept") (PStr "Unknown") ->
  get y "salesRep" = js_or (get y "Name_Empl") (PStr "Unknown") ->
  get y "amount" = PNum (toNumber (js_or (get y "TotalAmount_TransH") (PNum zero))) ->
  get y "gpRate" = PNum (parseFloat (gp_text y)) ->
  get y "status" = get y "Status_TransH" ->
  get y "date" = get y "DateCreated_TransH" ->
  get y "so_number" = js_or (get y "so_upk") (PStr "Unknown") ->
  Main.summarizeOne y = y.
Proof.
  intros H1 H2 H3 H4 H5 H6 H7 G1 G2 G3 G4 G5 G6 G7.
  unfold Main.summarizeOne. fold (gp_text y).
  rewrite (set_same y "division") by (auto; now symmetry).
  rewrite (set_same y "salesRep") by (auto; now symmetry).
  rewrite (set_same y "amount") by (auto; now symmetry).
  rewrite (set_same y "gpRate") by (auto; now symmetry).
  rewrite (set_same y "status") by (auto; now symmetry).
  rewrite (set_same y "date") by (auto; now symmetry).
  now apply set_same.
Qed.

Lemma summarizeOne_idempotent_when (so : order) :
  parseFloat (gp_text (Main.summarizeOne so)) = parseFloat (gp_text so) ->
  Main.summarizeOne (Main.summarizeOne so) = Main.summarizeOne so.
Proof.
  intros Hg. apply summarizeOne_fixed;
    try (unfold Main.summarizeOne; rewrite !has_set; reflexivity);
    try (unfold Main.summarizeOne; rewrite !get_set; reflexivity).
  rewrite Hg. apply Main_gpRate.
Qed.

Lemma gp_text_of_normalized (so : order) :
  gp_text (Main.summarizeOne so)
  = strip_gp (toStringP (js_or (PNum (parseFloat (gp_text so))) (PStr "0"))).
Proof. unfold gp_text at 1. now rewrite Main_gpRate. Qed.

(** C4 (as amended). In chat-main (and part_000), normalizing a normalized
    row gives the same row whenever the gross-profit rate of the normalized
    row is not NaN; when it is NaN the second normalization turns it into 0,
    and from the second normalization on the row no longer changes.  In
    part_001 the normalization renames the properties: a second
    normalization keeps so_pk and resets every other property to its
    default, and from the second normalization on the row no longer
    changes. *)
Theorem C4_normalization_twice (so : order) :
  let y := Main.summarizeOne so in
  (get y "gpRate" <> PNum NaN -> Main.summarizeOne y = y)
  /\ (get y "gpRate" = PNum NaN -> get (Main.summarizeOne y) "gpRate" = PNum zero)
  /\ Main.summarizeOne (Main.summarizeOne y) = Main.summarizeOne y
  /\ Pg.summarizeOne (Pg.summarizeOne so) = pg_blank so
  /\ Pg.summarizeOne (Pg.summarizeOne (Pg.summarizeOne so))
     = Pg.summarizeOne (Pg.summarizeOne so).
Proof.
  cbn zeta.
  assert (Hfirst : get (Main.summarizeOne so) "gpRate" <> PNum NaN ->
                   Main.summarizeOne (Main.summarizeOne so) = Main.summarizeOne so).
  { intros Hn. apply summarizeOne_idempotent_when.
    rewrite gp_text_of_normalized. apply gp_reread.
    rewrite Main_gpRate in Hn.
    destruct (parseFloat_well_formed (gp_text so)) as [E | H]; [congruence | exact H]. }
  assert (Hnan : get (Main.summarizeOne so) "gpRate" = PNum NaN ->
                 get (Main.summarizeOne (Main.summarizeOne so)) "gpRate" = PNum zero).
  { intros Hn. rewrite Main_gpRate, gp_text_of_normalized.
    rewrite Main_gpRate in Hn. injection Hn as ->. reflexivity. }
  split; [exact Hfirst|]. split; [exact Hnan|]. split.
  - apply summarizeOne_idempotent_when.
    rewrite gp_text_of_normalized. apply gp_reread.
    destruct (parseFloat_well_formed (gp_text so)) as [E | H].
    + rewrite gp_text_of_normalized, E. left. now split.
    + rewrite gp_text_of_normalized, (gp_reread _ H). exact H.
  - split; reflexivity.
Qed.

(** C4, counterexample: the raw gross-profit rate "N/A" normalizes to NaN,
    and normalizing again gives 0; in the second variant the order number of
    a normalized row is lost by a second normalization. *)
Lemma C4_counterexample_second_pass_differs :
  get (Main.summarizeOne na_row) "gpRate" = PNum NaN
  /\ get (Main.summarizeOne (Main.summarizeOne na_row)) "gpRate" = PNum zero
  /\ Main.summarizeOne (Main.summarizeOne na_row) <> Main.summarizeOne na_row
  /\ get (Pg.summarizeOne raw_ann) "so_number" = PStr "SO-1"
  /\ get (Pg.summarizeOne (Pg.summarizeOne raw_ann)) "so_number" = PStr "Unknown"
  /\ Pg.summarizeOne (Pg.summarizeOne raw_ann) <> Pg.summarizeOne raw_ann.
Proof.
  repeat split; try reflexivity; vm_compute; discriminate.
Qed.

(** ** The conditional parts of the theorems, on examples *)

Lemma C1_merge_witness :
  Pg.mergeNewData [old_row] [dup_row; old_row] = [old_row; dup_row]
  /\ List.length (Pg.mergeNewData [old_row] [dup_row; old_row])
     = (List.length [old_row] + genuinely_new [old_row] [dup_row; old_row])%nat
  /\ Pg.mergeNewData (Pg.mergeNewData [old_row] [dup_row; old_row]) [dup_row; old_row]
     = Pg.mergeNewData [old_row] [dup_row; old_row].
Proof.
  destruct (C1_merge_adds_rows_of_unknown_identity [old_row] [dup_row; old_row])
    as (H1 & _ & _ & _ & H5 & H6 & _).
  split; [rewrite H1; reflexivity|]. split; [apply H5; reflexivity | exact H6].
Defined.

Lemma C4_normalization_witness :
  Main.summarizeOne (Main.summarizeOne raw_ann) = Main.summarizeOne raw_ann
  /\ get (Main.summarizeOne (Main.summarizeOne na_row)) "gpRate" = PNum zero.
Proof.
  destruct (C4_normalization_twice raw_ann) as (H1 & _).
  destruct (C4_normalization_twice na_row) as (_ & H2 & _).
  split; [apply H1; vm_compute; discriminate | apply H2; reflexivity].
Defined.

Lemma C5_numeric_fields_witness :
  get (Main.summarizeOne fifty_five_row) "gpRate" = PNum (Fin 555 (-1))
  /\ get (Main.summarizeOne fifty_five_row) "amount" = PNum zero
  /\ get (Main.summarizeOne undated_raw) "gpRate" = PNum zero
  /\ exists n, get (Main.summarizeOne fifty_five_row) "gpRate" = PNum n
               /\ not_negative n.
Proof.
  destruct (C5_numeric_fields_are_numbers fifty_five_row)
    as (_ & _ & _ & H4 & H5 & H6 & _).
  destruct (C5_numeric_fields_are_numbers undated_raw) as (_ & _ & H3 & _).
  split; [apply H5; reflexivity|]. split; [apply H4; reflexivity|].
  split; [apply H3; reflexivity | apply H6; reflexivity].
Defined.

Lemma C10_filterOrders_witness :
  Main.filterOrders undated_main all_of_2024 = Throw TypeError
  /\ (exists r, Main.filterOrders cached_two zenith_in_2024 = Ok r)
  /\ Pg.filterOrders (rt := Ref.runtime) numeric_customer_pg zenith_in_2024
     = Throw TypeError.
Proof.
  destruct (C10_where_filterOrders_throws (rt := Ref.runtime) undated_main all_of_2024)
    as (H1 & _).
  destruct (C10_where_filterOrders_throws (rt := Ref.runtime) cached_two zenith_in_2024)
    as (_ & H2 & _).
  destruct (C10_where_filterOrders_throws (rt := Ref.runtime)
              numeric_customer_pg zenith_in_2024) as (_ & _ & _ & H4).
  split; [|split].
  - apply (H1 undated_main); [reflexivity | reflexivity |].
    eexists. split; [left; reflexivity | reflexivity].
  - apply H2; [reflexivity|]. intros o [<- | [<- | []]]; repeat split.
  - apply H4; [reflexivity | reflexivity |].
    eexists. split; [left; reflexivity | reflexivity].
Defined.
